(** * puppeteer-batch: the per-URL pipeline and the batch scheduler of server.js

    A shallow embedding of [server.js] and the properties of its
    classifier, reputation checker, pipeline and concurrency limiter.

    Conventions of the embedding.
    - A JavaScript string is a sequence of UTF-16 code units; the development
      covers the strings whose code units are below 256, one [ascii] per code
      unit (the Latin-1 range).  On that range [toLowerCase], [\s] and [trim]
      are written out in full.
    - JavaScript numbers that occur here (lengths, HTTP statuses,
      milliseconds) are non-negative integers and are modelled in [N].
    - Promises are modelled by their fate: the value or the error they settle
      with and the time it needs; [await] runs in a small state-and-error
      monad whose state is the clock and the log of external calls. *)

From Stdlib Require Import String Ascii List NArith Bool Lia DecimalString.
From stdpp Require Import base list.
Import ListNotations.

Local Open Scope string_scope.
Local Open Scope N_scope.

(** ** JavaScript strings *)

Definition code (c : ascii) : N := N_of_ascii c.

(** [String.prototype.toLowerCase] on one code unit of the Latin-1 range:
    A-Z, and the accented capitals U+00C0-U+00DE except the multiplication
    sign U+00D7, move 32 places up. *)
Definition lower_unit (c : ascii) : ascii :=
  let n := code c in
  if ((65 <=? n) && (n <=? 90)) || ((192 <=? n) && (n <=? 222) && negb (n =? 215))
  then ascii_of_N (n + 32)
  else c.

Fixpoint toLowerCase (s : string) : string :=
  match s with
  | EmptyString => EmptyString
  | String c s' => String (lower_unit c) (toLowerCase s')
  end.

(** [n] is found at the head of [s] *)
Fixpoint starts_with (n s : string) : bool :=
  match n, s with
  | EmptyString, _ => true
  | String a n', String b s' => Ascii.eqb a b && starts_with n' s'
  | String _ _, EmptyString => false
  end.

(** [s.includes(n)]: [n] is found at some position of [s]. *)
Fixpoint includes (s n : string) : bool :=
  starts_with n s ||
  match s with
  | EmptyString => false
  | String _ s' => includes s' n
  end.

(** [s.length] *)
Definition js_length (s : string) : N := N.of_nat (String.length s).

(** [s.slice(0, n)] *)
Fixpoint slice0 (n : N) (s : string) : string :=
  match s with
  | EmptyString => EmptyString
  | String c s' => if n =? 0 then EmptyString else String c (slice0 (N.pred n) s')
  end.

(** [a || b] on strings: the empty string is falsy. *)
Definition str_or (a b : string) : string :=
  if String.eqb a "" then b else a.

(** [a || b] where [a] may be [undefined] *)
Definition opt_or (a : option string) (b : string) : string :=
  match a with
  | Some s => str_or s b
  | None => b
  end.

(** Decimal rendering of a non-negative integer, as a template literal
    prints it. *)
Definition num_to_string (n : N) : string :=
  NilZero.string_of_uint (N.to_uint n).

(** ** Config *)

Definition MAX_URLS_PER_REQUEST : N := 50.
Definition CONCURRENCY : Z := 2.
Definition PER_URL_TIMEOUT_MS : N := 60000.
Definition TEXT_MAX_CHARS : N := 200000.
Definition MIN_TEXT_FOR_OK : N := 300.

(** ** Captcha/bot wall heuristic: [looksLikeCaptcha] *)

Definition strong : list string :=
  [ "attention required";
    "access denied";
    "cloudflare";
    "unusual traffic";
    "verify you are human";
    "bot detected";
    "press and hold" ].

Definition generic : list string :=
  [ "captcha"; "hcaptcha"; "recaptcha"; "are you a robot" ].

Definition looksLikeCaptcha (text title : string) : bool :=
  let t := toLowerCase (str_or text "") in
  let tt := toLowerCase (str_or title "") in
  if existsb (fun n => includes tt n || includes t n) strong then true
  else
    let mentionsGeneric := existsb (fun n => includes tt n || includes t n) generic in
    let tooShort := js_length (str_or text "") <? MIN_TEXT_FOR_OK in
    mentionsGeneric && tooShort.

(** ** Regular expressions of [htmlToText] and of the title extraction

    A regular expression is represented by its matcher: the length of the
    match that starts at the head of the given string, if there is one.
    With the [i] flag and no [u] flag a pattern letter matches exactly its
    two ASCII cases. *)

Definition fold_unit (c : ascii) : ascii :=
  let n := code c in
  if (65 <=? n) && (n <=? 90) then ascii_of_N (n + 32) else c.

(** [p], written in lower case, matches case-insensitively at the head of [s] *)
Fixpoint starts_with_ci (p s : string) : bool :=
  match p, s with
  | EmptyString, _ => true
  | String a p', String b s' => Ascii.eqb a (fold_unit b) && starts_with_ci p' s'
  | String _ _, EmptyString => false
  end.

(** offset of the first case-insensitive occurrence of [p] in [s] *)
Fixpoint index_ci (p s : string) : option nat :=
  if starts_with_ci p s then Some O
  else match s with
       | EmptyString => None
       | String _ s' => option_map S (index_ci p s')
       end.

(** [/p/i.test(s)] for a literal pattern [p] written in lower case *)
Definition test_ci (p s : string) : bool :=
  match index_ci p s with Some _ => true | None => false end.

Fixpoint index_unit (c : ascii) (s : string) : option nat :=
  match s with
  | EmptyString => None
  | String b s' => if Ascii.eqb b c then Some O else option_map S (index_unit c s')
  end.

Fixpoint str_drop (n : nat) (s : string) : string :=
  match n, s with
  | O, _ => s
  | S n', String _ s' => str_drop n' s'
  | S _, EmptyString => EmptyString
  end.

Fixpoint str_take (n : nat) (s : string) : string :=
  match n, s with
  | S n', String c s' => String c (str_take n' s')
  | _, _ => EmptyString
  end.

(** [\s] on the Latin-1 range: TAB, LF, VT, FF, CR, SPACE and NBSP *)
Definition is_space (c : ascii) : bool :=
  let n := code c in
  ((9 <=? n) && (n <=? 13)) || (n =? 32) || (n =? 160).

Definition matcher := string -> option nat.

(** [/<open[\s\S]*?<\/close>/i]: the opening literal, then lazily up to the
    first closing literal *)
Definition match_block (open close : string) : matcher := fun s =>
  if starts_with_ci open s then
    match index_ci close (str_drop (String.length open) s) with
    | Some k => Some (String.length open + k + String.length close)%nat
    | None => None
    end
  else None.

(** [/<[^>]+>/]: a [<], at least one unit other than [>], then [>] *)
Definition match_tag : matcher := fun s =>
  match s with
  | String "<" r =>
      match index_unit ">" r with
      | Some (S k) => Some (S k + 2)%nat
      | _ => None
      end
  | _ => None
  end.

Fixpoint span_space (s : string) : nat :=
  match s with
  | String c s' => if is_space c then S (span_space s') else O
  | EmptyString => O
  end.

(** [/\s+/] *)
Definition match_spaces : matcher := fun s =>
  match span_space s with
  | O => None
  | S k => Some (S k)
  end.

(** [s.replace(/re/g, " ")]: scan from the left; where the expression
    matches, emit one space and resume after the match ([skip] counts the
    units of the current match still to pass over). *)
Fixpoint replace_all (m : matcher) (skip : nat) (s : string) : string :=
  match s with
  | EmptyString => EmptyString
  | String c s' =>
      match skip with
      | S k => replace_all m k s'
      | O =>
          match m s with
          | Some (S k) => String " " (replace_all m k s')
          | _ => String c (replace_all m O s')
          end
      end
  end.

Fixpoint trim_start (s : string) : string :=
  match s with
  | String c s' => if is_space c then trim_start s' else s
  | EmptyString => EmptyString
  end.

Fixpoint trim_end (s : string) : string :=
  match s with
  | EmptyString => EmptyString
  | String c s' =>
      match trim_end s' with
      | EmptyString => if is_space c then EmptyString else String c EmptyString
      | r => String c r
      end
  end.

Definition trim (s : string) : string := trim_end (trim_start s).

Definition htmlToText (html : string) : string :=
  if String.eqb html "" then ""
  else
    let s := replace_all (match_block "<script" "</script>") O html in
    let s := replace_all (match_block "<style" "</style>") O s in
    let s := replace_all match_tag O s in
    trim (replace_all match_spaces O s).

(** [html.match(/<title[^>]*>([\s\S]*?)<\/title>/i)]: the first capture group
    of the leftmost match *)
Fixpoint match_title (html : string) : option string :=
  let here :=
    if starts_with_ci "<title" html then
      let r := str_drop 6 html in
      match index_unit ">" r with
      | Some k =>
          let body := str_drop (S k) r in
          match index_ci "</title>" body with
          | Some j => Some (str_take j body)
          | None => None
          end
      | None => None
      end
    else None in
  match here with
  | Some g => Some g
  | None =>
      match html with
      | EmptyString => None
      | String _ h' => match_title h'
      end
  end.

(** [encodeURIComponent] on the Latin-1 range: the unreserved marks stay,
    every other unit is written as the percent-escapes of its UTF-8 bytes. *)
Definition hex_digit (n : N) : ascii :=
  if n <? 10 then ascii_of_N (48 + n) else ascii_of_N (55 + n).

Definition percent (byte : N) : string :=
  String "%" (String (hex_digit (byte / 16)) (String (hex_digit (byte mod 16)) EmptyString)).

Definition is_unreserved (c : ascii) : bool :=
  let n := code c in
  ((65 <=? n) && (n <=? 90)) || ((97 <=? n) && (n <=? 122)) || ((48 <=? n) && (n <=? 57))
  || existsb (Ascii.eqb c) ["-"; "_"; "."; "!"; "~"; "*"; "'"; "("; ")"]%char.

Fixpoint encodeURIComponent (s : string) : string :=
  match s with
  | EmptyString => EmptyString
  | String c s' =>
      let n := code c in
      (if is_unreserved c then String c EmptyString
       else if n <? 128 then percent n
       else percent (192 + n / 64) ++ percent (128 + n mod 64))
      ++ encodeURIComponent s'
  end.

(** ** Errors *)

Record js_error : Type := { name : string; message : string }.

Definition Error (msg : string) : js_error := {| name := "Error"; message := msg |}.

Definition TypeError (msg : string) : js_error :=
  {| name := "TypeError"; message := msg |}.

(** ** Values of a request body *)

(** What [JSON.parse] can produce, and [undefined] for a missing property.
    A number is carried by its canonical rendering ([Number::toString]),
    which decides both its equality in a [Set] and its conversion to a
    string. *)
#[local] Set Warnings "-register-all".
Inductive jsval : Type :=
| JUndefined
| JNull
| JBool (b : bool)
| JNum (repr : string)
| JStr (s : string)
| JArr (items : list jsval)
| JObj (fields : list (string * jsval)).

(** [String(v)], as [new URL(v)] and a template literal apply it.  An array
    is joined by [Array.prototype.join], which converts its items in turn.
    An object of a parsed body has the prototype [Object.prototype], and no
    property of it is callable: with an own property [toString] the
    conversion finds no method that gives a primitive ([valueOf] returns the
    object itself) and throws a TypeError; without one it is
    [Object.prototype.toString]. *)
Definition has_own (k : string) (fields : list (string * jsval)) : bool :=
  existsb (fun kv => String.eqb (fst kv) k) fields.

Fixpoint to_string (v : jsval) : string + js_error :=
  match v with
  | JUndefined => inl "undefined"
  | JNull => inl "null"
  | JBool true => inl "true"
  | JBool false => inl "false"
  | JNum repr => inl repr
  | JStr s => inl s
  | JArr items =>
      (fix join (l : list jsval) : string + js_error :=
         match l with
         | [] => inl ""
         | x :: l' =>
             match (match x with
                    | JUndefined | JNull => inl ""
                    | _ => to_string x
                    end) with
             | inr err => inr err
             | inl e =>
                 match l' with
                 | [] => inl e
                 | _ :: _ =>
                     match join l' with
                     | inl r => inl (e ++ "," ++ r)
                     | inr err => inr err
                     end
                 end
             end
         end) items
  | JObj fields =>
      if has_own "toString" fields
      then inr (TypeError "Cannot convert object to primitive value")
      else inl "[object Object]"
  end.

(** [SameValueZero], the equality of [Set]: primitives by value, objects and
    arrays by reference; the arrays and objects of one parsed body are
    pairwise distinct references. *)
Definition sameValueZero (a b : jsval) : bool :=
  match a, b with
  | JUndefined, JUndefined => true
  | JNull, JNull => true
  | JBool x, JBool y => Bool.eqb x y
  | JNum x, JNum y => String.eqb x y
  | JStr x, JStr y => String.eqb x y
  | _, _ => false
  end.

(** [body?.urls] *)
Fixpoint lookup_field (k : string) (fields : list (string * jsval)) : jsval :=
  match fields with
  | [] => JUndefined
  | (k', v) :: rest =>
      match lookup_field k rest with
      | JUndefined => if String.eqb k k' then v else JUndefined
      | later => later
      end
  end.

Definition get_urls (body : jsval) : jsval :=
  match body with
  | JObj fields => lookup_field "urls" fields
  | _ => JUndefined
  end.

(** ** Errors, promises and the [await] monad *)

(** [Error.prototype.toString] *)
Definition error_to_string (e : js_error) : string :=
  if String.eqb (name e) "" then message e
  else if String.eqb (message e) "" then name e
  else name e ++ ": " ++ message e.

(** [String(e?.message || e)] *)
Definition message_or_error (e : js_error) : string :=
  if String.eqb (message e) "" then error_to_string e else message e.

Inductive page_op : Type :=
| OpGetBrowser | OpNewPage | OpSetRequestInterception
| OpGoto (url : string) | OpTitle | OpEvaluate | OpWaitForNavigation | OpClose.

(** The calls that leave the process. *)
Inductive call : Type :=
| ApivoidPost (host : string)
| Browser (op : page_op)
| ScraperApiGet (api : string)
| Delay (ms : N).

(** The fate of a promise: after [latency] milliseconds it is fulfilled
    ([inl]) or rejected ([inr]). *)
Record fate (A : Type) : Type := { latency : N; settles : A + js_error }.
Arguments latency {A} _.
Arguments settles {A} _.

Definition fulfilled {A} (ms : N) (a : A) : fate A := {| latency := ms; settles := inl a |}.
Definition rejected {A} (ms : N) (e : js_error) : fate A := {| latency := ms; settles := inr e |}.

Record clock_log : Type := { now : N; calls : list call }.

Definition M (A : Type) : Type := clock_log -> clock_log * (A + js_error).

Definition ret {A} (a : A) : M A := fun s => (s, inl a).
Definition throw {A} (e : js_error) : M A := fun s => (s, inr e).

Definition bind {A B} (m : M A) (k : A -> M B) : M B := fun s =>
  match m s with
  | (s', inl a) => k a s'
  | (s', inr e) => (s', inr e)
  end.

(** [try { m } catch (e) { h(e) }] *)
Definition try_catch {A} (m : M A) (h : js_error -> M A) : M A := fun s =>
  match m s with
  | (s', inl a) => (s', inl a)
  | (s', inr e) => h e s'
  end.

(** [try { m } finally { f }]: an error of [f] replaces the outcome of [m] *)
Definition try_finally {A} (m : M A) (f : M unit) : M A := fun s =>
  match m s with
  | (s', r) =>
      match f s' with
      | (s'', inl _) => (s'', r)
      | (s'', inr e) => (s'', inr e)
      end
  end.

(** [await p] for an external call [c] whose promise has fate [p] *)
Definition await {A} (c : call) (p : fate A) : M A := fun s =>
  ({| now := now s + latency p; calls := calls s ++ [c] |}, settles p).

(** [Date.now()] *)
Definition Date_now : M N := fun s => (s, inl (now s)).

Declare Scope await_scope.
Delimit Scope await_scope with await.
Notation "x <- m ;; k" := (bind m (fun x => k))
  (at level 20, m at level 99, k at level 200, only parsing) : await_scope.
Local Open Scope await_scope.

(** ** The process environment and the outside world of one task *)

(** The fields of a [URL] object that the code reads. *)
Record URL : Type := { protocol : string; href : string; hostname : string }.

(** What the process reads at start-up, and the platform's URL parser
    ([URL_parse s = None] when [new URL(s)] throws). *)
Record environment : Type := {
  APIVOID_KEY : string;
  SCRAPERAPI_KEY : string;
  URL_parse : string -> option URL
}.

(** The body of a reputation-service response, as the code reads it:
    [error] is [data?.error], the two flags are the truthiness of
    [data?.a_records_found] and [data?.parked_domain]. *)
Record apivoid_data : Type := {
  error : option string;
  a_records_found : bool;
  parked_domain : bool
}.

Record axios_response (D : Type) : Type := { status : N; data : D }.
Arguments status {D} _.
Arguments data {D} _.

(** The behaviour of the page that the browser opens for one task. *)
Record page : Type := {
  goto : string -> fate (option N);           (* [resp?.status() ?? null] *)
  title_at : nat -> fate string;              (* [page.title()], by attempt *)
  innerText_at : nat -> fate (option string); (* [document.body?.innerText], by attempt *)
  waitForNavigation : nat -> fate unit;
  close : fate unit
}.

(** Everything outside the process that one run of the pipeline meets. *)
Record world : Type := {
  apivoid_post : string -> fate (axios_response (option apivoid_data));
  getBrowser : fate unit;
  newPage : fate unit;
  setRequestInterception : fate unit;
  the_page : page;
  scraper_get : string -> fate (axios_response (option string))
    (* [data] is [Some html] when [typeof resp.data === "string"] *)
}.

(** ** Stage results *)

Inductive apiRes : Type :=
| ApiOk
| ApiFail (reason text : string).

Record fetchRes : Type := {
  ok : bool;
  reason : option string;
  text : option string;
  httpStatus : option N;
  title : string;
  content : string
}.

Record result : Type := {
  r_status : string;
  url_input : jsval;
  failure_reason : string;
  failure_text : string;
  scraped_text : string;
  ms : N
}.

Section Pipeline.

Variable env : environment.

(** *** Utils *)

Definition normalizeUrl (u : jsval) : option string :=
  match to_string u with
  | inl text =>
      match URL_parse env text with
      | Some url =>
          if negb (existsb (String.eqb (protocol url)) ["http:"; "https:"]) then None
          else Some (href url)
      | None => None
      end
  | inr _ => None   (* [new URL(u)] throws inside the [try] *)
  end.

Definition hostOnly (u : string) : option string :=
  match URL_parse env u with
  | Some url => Some (hostname url)
  | None =>
      match URL_parse env ("http://" ++ u) with
      | Some url => Some (hostname url)
      | None => None
      end
  end.

(** *** External calls *)

Definition apivoidCheck (w : world) (host : option string) : M apiRes :=
  if String.eqb (APIVOID_KEY env) "" then
    ret (ApiFail "apivoid_api_key" "APIVoid API key is missing.")
  else
    match host with
    | None | Some EmptyString =>
        ret (ApiFail "wrong_format" "Host could not be derived from the URL.")
    | Some h =>
        try_catch
          (resp <- await (ApivoidPost h) (apivoid_post w h) ;;
           let err := match data resp with Some d => error d | None => None end in
           if (400 <=? status resp) || negb (String.eqb (opt_or err "") "") then
             let msg := opt_or err ("APIVoid HTTP " ++ num_to_string (status resp)) in
             if test_ci "domain name is not valid" msg then
               ret (ApiFail "wrong_format"
                      ("The input url domain is not valid for APIVoid (" ++ msg ++ ")."))
             else if test_ci "insufficient" msg || test_ci "credit" msg
                     || test_ci "api key" msg || test_ci "unauthorized" msg
                     || test_ci "forbidden" msg then
               ret (ApiFail "apivoid_api_key" msg)
             else
               ret (ApiFail "apivoid_api_key" msg)
           else
             let aRecords := match data resp with Some d => a_records_found d | None => false end in
             let parked := match data resp with Some d => parked_domain d | None => false end in
             if negb aRecords then
               ret (ApiFail "a_records_not_found"
                      "The domain appeared to be offline on the Apivoid check.")
             else if parked then
               ret (ApiFail "parked_domain"
                      "The domain appeared to be a parked domain on the Apivoid check.")
             else ret ApiOk)
          (fun e =>
             ret (ApiFail "apivoid_api_key"
                    ("APIVoid request failed: " ++ message_or_error e)))
    end.

Definition scraperApiFetch (w : world) (url : string) : M fetchRes :=
  if String.eqb (SCRAPERAPI_KEY env) "" then
    ret {| ok := false; reason := Some "scraperapi"; text := Some "ScraperAPI key is missing.";
           httpStatus := None; title := ""; content := "" |}
  else
    try_catch
      (let api := "https://api.scraperapi.com?api_key=" ++ SCRAPERAPI_KEY env
                  ++ "&render=true&url=" ++ encodeURIComponent url in
       resp <- await (ScraperApiGet api) (scraper_get w api) ;;
       let html := match data resp with Some s => s | None => "" end in
       let text_ := slice0 TEXT_MAX_CHARS (htmlToText html) in
       let title_ := match match_title html with
                     | Some g => slice0 300 (htmlToText g)
                     | None => ""
                     end in
       if 400 <=? status resp then
         ret {| ok := false; reason := Some "scraperapi";
                text := Some ("ScraperAPI HTTP " ++ num_to_string (status resp));
                httpStatus := Some (status resp); title := title_; content := "" |}
       else
         ret {| ok := true; reason := None; text := None;
                httpStatus := Some (status resp); title := title_; content := text_ |})
      (fun e =>
         ret {| ok := false; reason := Some "scraperapi";
                text := Some ("ScraperAPI request failed: " ++ message_or_error e);
                httpStatus := None; title := ""; content := "" |}).

(** *** Puppeteer *)

Definition withPage {A} (w : world) (fn : page -> M A) : M A :=
  _ <- await (Browser OpGetBrowser) (getBrowser w) ;;
  _ <- await (Browser OpNewPage) (newPage w) ;;
  _ <- await (Browser OpSetRequestInterception) (setRequestInterception w) ;;
  try_finally (fn (the_page w)) (await (Browser OpClose) (close (the_page w))).

(** The loop [for (let i = 0; i < attempts; i++)], by the number of
    attempts that remain. *)
Fixpoint titleAndTextLoop (p : page) (settleWaitMs : N) (remaining i : nat)
    (lastErr : option js_error) : M (string * string) :=
  match remaining with
  | O =>
      throw (match lastErr with
             | Some e => e
             | None => Error "execution_context_retries_exhausted"
             end)
  | S remaining' =>
      try_catch
        (title_ <- await (Browser OpTitle) (title_at p i) ;;
         inner <- await (Browser OpEvaluate) (innerText_at p i) ;;
         let text_ := match inner with
                      | Some t => str_or (trim t) ""
                      | None => ""
                      end in
         ret (title_, text_))
        (fun e =>
           let msg := message_or_error e in
           let transient := test_ci "execution context was destroyed" msg
                            || test_ci "cannot find context with specified id" msg in
           if negb transient then throw e
           else
             _ <- try_catch (await (Browser OpWaitForNavigation) (waitForNavigation p i))
                            (fun _ => ret tt) ;;
             _ <- await (Delay settleWaitMs) (fulfilled settleWaitMs tt) ;;
             titleAndTextLoop p settleWaitMs remaining' (S i) (Some e))
  end.

Definition getTitleAndTextWithRetries (p : page) (attempts : nat) (settleWaitMs : N)
  : M (string * string) :=
  titleAndTextLoop p settleWaitMs attempts O None.

Definition puppeteerFetch (w : world) (url : string) : M fetchRes :=
  withPage w (fun p =>
    httpStatus_ <- await (Browser (OpGoto url)) (goto p url) ;;
    let bad := match httpStatus_ with
               | None => true
               | Some n => (n =? 0) || (400 <=? n)
               end in
    if bad then
      title_ <- try_catch (await (Browser OpTitle) (title_at p O)) (fun _ => ret "") ;;
      ret {| ok := false; reason := Some "offline_on_puppeteer";
             text := Some ("HTTP " ++ match httpStatus_ with
                                      | Some n => num_to_string n
                                      | None => "no_response"
                                      end);
             httpStatus := httpStatus_; title := title_; content := "" |}
    else
      tt_ <- getTitleAndTextWithRetries p 2 600 ;;
      ret {| ok := true; reason := None; text := None; httpStatus := httpStatus_;
             title := fst tt_; content := slice0 TEXT_MAX_CHARS (snd tt_) |}).

(** *** Per-URL pipeline *)

(** [Promise.race([p, timer])]: [p] wins when it settles before the
    [PER_URL_TIMEOUT_MS] timer; otherwise the race rejects with
    [Error("timeout")] at the deadline.  The loser is not cancelled: the calls
    it makes stay in the log. *)
Definition hardCap {A} (p : M A) : M A := fun s =>
  match p s with
  | (s', r) =>
      if now s' - now s <? PER_URL_TIMEOUT_MS then (s', r)
      else ({| now := now s + PER_URL_TIMEOUT_MS; calls := calls s' |},
            inr (Error "timeout"))
  end.

Definition processOne (w : world) (inputUrl : jsval) : M result :=
  start <- Date_now ;;
  (* 1) URL format check *)
  match normalizeUrl inputUrl with
  | None =>
      (* the template literal converts [inputUrl] outside any [try] *)
      match to_string inputUrl with
      | inr e => throw e
      | inl text =>
          t <- Date_now ;;
          ret {| r_status := "failure"; url_input := inputUrl;
                 failure_reason := "wrong_format";
                 failure_text := "The input url `" ++ text
                                 ++ "` is not properly formatted.";
                 scraped_text := ""; ms := t - start |}
      end
  | Some url =>
      (* 2) APIVoid check (host only) *)
      let host := hostOnly url in
      apiRes_ <- apivoidCheck w host ;;
      match apiRes_ with
      | ApiFail reason_ text_ =>
          t <- Date_now ;;
          ret {| r_status := "failure"; url_input := inputUrl;
                 failure_reason := reason_; failure_text := text_;
                 scraped_text := ""; ms := t - start |}
      | ApiOk =>
          (* 3) Puppeteer fetch *)
          pptr <- try_catch (hardCap (puppeteerFetch w url))
                    (fun e => ret {| ok := false; reason := Some "offline_on_puppeteer";
                                     text := Some (message_or_error e);
                                     httpStatus := None; title := ""; content := "" |}) ;;
          if negb (ok pptr) then
            t <- Date_now ;;
            ret {| r_status := "failure"; url_input := inputUrl;
                   failure_reason := "offline_on_puppeteer";
                   failure_text := opt_or (text pptr) "The webpage did not load.";
                   scraped_text := ""; ms := t - start |}
          else
            (* 4) CAPTCHA / short content decision *)
            let isCaptchaOrShort := looksLikeCaptcha (content pptr) (title pptr) in
            if negb isCaptchaOrShort then
              t <- Date_now ;;
              ret {| r_status := "success"; url_input := inputUrl;
                     failure_reason := ""; failure_text := "";
                     scraped_text := content pptr; ms := t - start |}
            else
              (* 5) ScraperAPI fallback; the [log] line before it writes to the console only *)
              viaProxy <- hardCap (scraperApiFetch w url) ;;
              if negb (ok viaProxy) then
                t <- Date_now ;;
                ret {| r_status := "failure"; url_input := inputUrl;
                       failure_reason := opt_or (reason viaProxy) "scraperapi";
                       failure_text := opt_or (text viaProxy) "ScraperAPI failed.";
                       scraped_text := ""; ms := t - start |}
              else
                let proxyBad := looksLikeCaptcha (content viaProxy) (title viaProxy) in
                if proxyBad then
                  t <- Date_now ;;
                  ret {| r_status := "failure"; url_input := inputUrl;
                         failure_reason := "scraperapi";
                         failure_text := "ScraperAPI returned CAPTCHA/short content.";
                         scraped_text := ""; ms := t - start |}
                else
                  t <- Date_now ;;
                  ret {| r_status := "success"; url_input := inputUrl;
                         failure_reason := ""; failure_text := "";
                         scraped_text := content viaProxy; ms := t - start |}
      end
  end.

(** One run of the pipeline from a fresh clock: what it returns or throws,
    and the calls it made. *)
Definition run_processOne (w : world) (inputUrl : jsval) : result + js_error :=
  snd (processOne w inputUrl {| now := 0; calls := [] |}).

Definition calls_of_processOne (w : world) (inputUrl : jsval) : list call :=
  calls (fst (processOne w inputUrl {| now := 0; calls := [] |})).

End Pipeline.

(** ** Concurrency limiter and [Promise.all]

    JavaScript runs each callback to completion, so the limiter changes state
    in two kinds of atomic steps: a call of the function that [limiter]
    returns (all of them happen inside the synchronous [unique.map]), and the
    continuation of [run] after [await fn()], when a task has settled.  Tasks
    are named by their index in [unique]. *)

Section Scheduler.

Context {T : Type}.
Variable limit : Z.
(** what [fn()] of each task settles with *)
Variable tasks : list (T + js_error).

Record scheduler : Type := {
  active : Z;                            (* [let active = 0] *)
  q : list nat;                          (* [const q = []], head first *)
  running : list nat;                    (* tasks whose [fn()] is pending *)
  started : list nat;                    (* every call of [fn()], in order *)
  slots : list (option (T + js_error));  (* the promises handed to [Promise.all] *)
  first_rejection : option js_error      (* what [Promise.all] rejects with *)
}.

Definition idle (n : nat) : scheduler :=
  {| active := 0; q := []; running := []; started := [];
     slots := replicate n None; first_rejection := None |}.

(** [run] up to its [await]: [active++] and the call of [fn()] *)
Definition run_task (i : nat) (s : scheduler) : scheduler :=
  {| active := active s + 1; q := q s;
     running := running s ++ [i]; started := started s ++ [i];
     slots := slots s; first_rejection := first_rejection s |}.

(** [active < limit ? run() : q.push(run)] *)
Definition limited (i : nat) (s : scheduler) : scheduler :=
  if (active s <? limit)%Z then run_task i s
  else {| active := active s; q := q s ++ [i];
          running := running s; started := started s;
          slots := slots s; first_rejection := first_rejection s |}.

(** [next]: [active--; q.shift()?.()] *)
Definition next (s : scheduler) : scheduler :=
  let s1 := {| active := active s - 1; q := q s;
               running := running s; started := started s;
               slots := slots s; first_rejection := first_rejection s |} in
  match q s1 with
  | [] => s1
  | j :: q' =>
      run_task j {| active := active s1; q := q';
                    running := running s1; started := started s1;
                    slots := slots s1; first_rejection := first_rejection s1 |}
  end.

(** The rest of [run] once [fn()] of the running task [i] has settled:
    [res(...)] or [rej(e)], then [next()] in the [finally]. *)
Definition settle (i : nat) (s : scheduler) : option scheduler :=
  match tasks !! i with
  | Some o =>
      if bool_decide (i ∈ running s) then
        Some (next {| active := active s; q := q s;
                      running := filter (λ j, j ≠ i) (running s);
                      started := started s;
                      slots := <[i := Some o]> (slots s);
                      first_rejection :=
                        match first_rejection s, o with
                        | None, inr e => Some e
                        | r, _ => r
                        end |})
      else None
  | None => None
  end.

(** [unique.map((u) => run(...))] *)
Definition submit_all (n : nat) : scheduler :=
  fold_left (fun s i => limited i s) (seq 0 n) (idle n).

(** The tasks settle in the order given; [None] when the order names a task
    that is not running at that point. *)
Fixpoint settle_in_order (order : list nat) (s : scheduler) : option scheduler :=
  match order with
  | [] => Some s
  | i :: rest =>
      match settle i s with
      | Some s' => settle_in_order rest s'
      | None => None
      end
  end.

Definition all_settled (s : scheduler) : bool :=
  bool_decide (running s = []) && bool_decide (q s = []).

(** The values of the fulfilled promises, in index order. *)
Definition fulfilled_values (s : scheduler) : list T :=
  omap (λ o, match o with Some (inl r) => Some r | _ => None end) (slots s).

End Scheduler.

Arguments scheduler T : clear implicits.

(** ** HTTP: POST /batch-scrape *)

(** [new Set(list)] adds the items in order; [[...set]] lists them in
    insertion order. *)
Definition set_add (seen : list jsval) (v : jsval) : list jsval :=
  if existsb (sameValueZero v) seen then seen else seen ++ [v].

Definition spread_set (lst : list jsval) : list jsval :=
  fold_left set_add lst [].

Inductive response : Type :=
| Status400 (error : string)
| Json200 (requestId : string) (results : list result)
| Unanswered (e : js_error).   (* the handler's promise rejects; [res.json] is not reached *)

Section BatchScrape.

Variable env : environment.

(** The handler, for a request body, the world that each task meets and the
    order in which the tasks settle.  It returns the response and the final
    state of the limiter; [None] when [order] is not a complete run of the
    scheduled tasks. *)
Definition batch_scrape (reqId : string) (body : jsval) (worlds : nat -> world)
    (order : list nat) : option (response * scheduler result) :=
  match get_urls body with
  | JArr lst =>
      let unique := spread_set lst in
      if MAX_URLS_PER_REQUEST <? N.of_nat (length unique) then
        Some (Status400 ("Too many URLs; max " ++ num_to_string MAX_URLS_PER_REQUEST ++ "."),
              idle 0)
      else
        let tasks := imap (fun i u => run_processOne env (worlds i) u) unique in
        match settle_in_order tasks order (submit_all CONCURRENCY (length unique)) with
        | Some s =>
            if all_settled s then
              match first_rejection s with
              | Some e => Some (Unanswered e, s)
              | None => Some (Json200 reqId (fulfilled_values s), s)
              end
            else None
        | None => None
        end
  | _ => Some (Status400 "Body must be { urls: string[] }", idle 0)
  end.

End BatchScrape.

(** ** A concrete environment and concrete worlds, for the examples *)

Module Sample.

(** A stand-in for the platform's URL parser on plain [scheme://host/path]
    inputs: the scheme is a letter followed by letters, digits, [+], [-] or
    [.], up to the first colon (an input without one does not parse); the
    host runs up to the first [/], [?] or [#] and must not be empty; scheme
    and host are lower-cased and an empty path becomes [/]. *)
Definition is_alpha (c : ascii) : bool :=
  let n := code (fold_unit c) in (97 <=? n) && (n <=? 122).

Definition is_scheme_unit (c : ascii) : bool :=
  let n := code c in
  is_alpha c || ((48 <=? n) && (n <=? 57)) || existsb (Ascii.eqb c) ["+"; "-"; "."]%char.

Fixpoint scan_scheme (s acc : string) : option (string * string) :=
  match s with
  | EmptyString => None
  | String c s' =>
      if Ascii.eqb c ":" then Some (acc, s')
      else if is_scheme_unit c then scan_scheme s' (acc ++ String (fold_unit c) EmptyString)
      else None
  end.

Fixpoint scan_host (s acc : string) : string * string :=
  match s with
  | EmptyString => (acc, EmptyString)
  | String c s' =>
      if existsb (Ascii.eqb c) ["/"; "?"; "#"]%char then (acc, s)
      else scan_host s' (acc ++ String (fold_unit c) EmptyString)
  end.

Definition parse (s : string) : option URL :=
  match s with
  | String c _ =>
      if is_alpha c then
        match scan_scheme s "" with
        | Some (scheme, String "/" (String "/" rest)) =>
            let (host, path) := scan_host rest "" in
            if String.eqb host "" then None
            else
              let path := match path with
                          | String "/" _ => path
                          | _ => "/" ++ path
                          end in
              Some {| protocol := scheme ++ ":";
                      href := scheme ++ "://" ++ host ++ path;
                      hostname := host |}
        | _ => None
        end
      else None
  | EmptyString => None
  end.

Definition env (apivoid scraper : string) : environment :=
  {| APIVOID_KEY := apivoid; SCRAPERAPI_KEY := scraper; URL_parse := parse |}.

Definition a_page (status_ : option N) (title_ : string) (inner : option string) : page :=
  {| goto := fun _ => fulfilled 800 status_;
     title_at := fun _ => fulfilled 5 title_;
     innerText_at := fun _ => fulfilled 5 inner;
     waitForNavigation := fun _ => fulfilled 100 tt;
     close := fulfilled 10 tt |}.

(** A world in which the reputation service answers [reputation], the
    browser shows page [p] and the proxy answers [proxy]. *)
Definition a_world (reputation : fate (axios_response (option apivoid_data)))
    (p : page) (proxy : fate (axios_response (option string))) : world :=
  {| apivoid_post := fun _ => reputation;
     getBrowser := fulfilled 0 tt;
     newPage := fulfilled 20 tt;
     setRequestInterception := fulfilled 1 tt;
     the_page := p;
     scraper_get := fun _ => proxy |}.

Definition live : fate (axios_response (option apivoid_data)) :=
  fulfilled 300 {| status := 200;
                   data := Some {| error := None; a_records_found := true;
                                   parked_domain := false |} |}.

Definition html_reply (ms_ : N) (status_ : N) (html : string)
  : fate (axios_response (option string)) :=
  fulfilled ms_ {| status := status_; data := Some html |}.

(** [n] copies of [s], to build long texts *)
Fixpoint repeat_string (n : nat) (s : string) : string :=
  match n with
  | O => EmptyString
  | S n' => s ++ repeat_string n' s
  end.

Definition long_text : string := repeat_string 30 "lorem ipsum ".

End Sample.


(** ** Notions of the specification *)

Fixpoint map_units (f : ascii -> ascii) (s : string) : string :=
  match s with
  | EmptyString => EmptyString
  | String c s' => String (f c) (map_units f s')
  end.

(** [n] occurs in [s] when units are compared through [f]: some contiguous
    part of [s] becomes [n] under [f]. *)
Definition occurs_upto (f : ascii -> ascii) (n s : string) : Prop :=
  exists pre mid post, s = pre ++ mid ++ post /\ map_units f mid = n.

(** a phrase occurs in a field, ignoring case *)
Definition occurs_ci (n s : string) : Prop := occurs_upto lower_unit n s.

(** a literal pattern matches under the [i] flag *)
Definition matches_i (n s : string) : Prop := occurs_upto fold_unit n s.

(** a phrase is mentioned by the page: it occurs in the title or in the text *)
Definition mentions (n text_ title_ : string) : Prop :=
  occurs_ci n title_ \/ occurs_ci n text_.

(** The classifier as the specification words it. *)
Definition blocked (text_ title_ : string) : Prop :=
  (exists n, In n strong /\ mentions n text_ title_)
  \/ ((exists n, In n generic /\ mentions n text_ title_)
      /\ js_length text_ < MIN_TEXT_FOR_OK).

(** Deduplication that keeps, of equal items, the first one. *)
Fixpoint first_occurrences (l : list jsval) : list jsval :=
  match l with
  | [] => []
  | x :: l' => x :: List.filter (fun y => negb (sameValueZero x y)) (first_occurrences l')
  end.

Definition is_string (v : jsval) : bool :=
  match v with JStr _ => true | _ => false end.

(** the request carries a sequence of strings *)
Definition is_string_sequence (v : jsval) : bool :=
  match v with
  | JArr items => forallb is_string items
  | _ => false
  end.

Definition is_array (v : jsval) : bool :=
  match v with JArr _ => true | _ => false end.

(** the number of unique items of the request *)
Definition unique_count (v : jsval) : nat :=
  match v with
  | JArr items => length (spread_set items)
  | _ => O
  end.

(** [data?.error] of a reputation-service response *)
Definition response_error (resp : axios_response (option apivoid_data)) : option string :=
  match data resp with
  | Some d => error d
  | None => None
  end.

(** the response carries an error: [data?.error] is truthy *)
Definition has_error (resp : axios_response (option apivoid_data)) : Prop :=
  opt_or (response_error resp) "" <> "".

(** the error text that is inspected: the error field, or the HTTP status *)
Definition error_text (resp : axios_response (option apivoid_data)) : string :=
  opt_or (response_error resp) ("APIVoid HTTP " ++ num_to_string (status resp)).

Definition flag (f : apivoid_data -> bool) (resp : axios_response (option apivoid_data)) : bool :=
  match data resp with
  | Some d => f d
  | None => false
  end.

(** the reason of a stage result, [None] for ok *)
Definition reason_of (r : apiRes) : option string :=
  match r with
  | ApiOk => None
  | ApiFail reason_ _ => Some reason_
  end.



(** The states that the limiter can be in once [k] of the tasks have been
    handed to it: the counter counts the running tasks and stays within the
    limit, the queue is used only when the limit is reached, tasks start in
    the order of their index, and the slot of a task is filled exactly when it
    has started and is no longer running. *)
Record coherent {T : Type} (limit : Z) (tasks : list (T + js_error)) (k : nat)
    (s : scheduler T) : Prop := {
  coh_limit : (0 < limit)%Z;
  coh_active : active s = Z.of_nat (length (running s));
  coh_bound : (active s <= limit)%Z;
  coh_busy : q s <> [] -> active s = limit;
  coh_fifo : (started s ++ q s)%list = seq 0 k;
  coh_submitted : (k <= length tasks)%nat;
  coh_nodup : NoDup (running s);
  coh_running : forall i, i ∈ running s -> i ∈ started s;
  coh_slots_len : length (slots s) = length tasks;
  coh_filled : forall i o, slots s !! i = Some (Some o) ->
                 tasks !! i = Some o /\ i ∈ started s /\ i ∉ running s;
  coh_done : forall i, i ∈ started s -> i ∉ running s ->
               exists o, slots s !! i = Some (Some o);
  coh_rejection : forall e, first_rejection s = Some e ->
                    exists i, tasks !! i = Some (inr e);
  coh_no_rejection : first_rejection s = None ->
                       forall i e, slots s !! i <> Some (Some (inr e))
}.

(** the error of the first task, in the order of completion, that threw *)
Fixpoint first_error {T : Type} (tasks : list (T + js_error)) (order : list nat)
  : option js_error :=
  match order with
  | [] => None
  | i :: rest =>
      match tasks !! i with
      | Some (inr e) => Some e
      | _ => first_error tasks rest
      end
  end.

(** *** Shapes of extracted text *)

Definition head_space (s : string) : bool :=
  match s with
  | String c _ => is_space c
  | EmptyString => false
  end.

(** every whitespace unit is a plain space and no whitespace unit follows it *)
Fixpoint collapsed (s : string) : bool :=
  match s with
  | EmptyString => true
  | String c s' =>
      (negb (is_space c) || (Ascii.eqb c " " && negb (head_space s'))) && collapsed s'
  end.

(** every whitespace unit is a plain space and a unit that is not whitespace
    follows it *)
Fixpoint spaced (s : string) : bool :=
  match s with
  | EmptyString => true
  | String c s' =>
      (negb (is_space c)
       || (Ascii.eqb c " "
           && match s' with
              | String d _ => negb (is_space d)
              | EmptyString => false
              end))
      && spaced s'
  end.

(** no tag is left: [/<[^>]+>/] matches at no position *)
Fixpoint tag_free (s : string) : bool :=
  match s with
  | EmptyString => true
  | String _ s' =>
      match match_tag s with
      | Some _ => false
      | None => tag_free s'
      end
  end.

(** how often the unit [c] occurs *)
Fixpoint count_unit (c : ascii) (s : string) : nat :=
  match s with
  | EmptyString => O
  | String d s' => (if Ascii.eqb d c then 1 else 0) + count_unit c s'
  end.

(** *** Notions for the fetchers *)

(** the test of [getTitleAndTextWithRetries] for an error caused by a reload *)
Definition is_transient (e : js_error) : bool :=
  test_ci "execution context was destroyed" (message_or_error e)
  || test_ci "cannot find context with specified id" (message_or_error e).

(** what the [i]-th attempt to read title and text gives, time aside *)
Definition attempt (p : page) (i : nat) : (string * string) + js_error :=
  match settles (title_at p i) with
  | inr e => inr e
  | inl t =>
      match settles (innerText_at p i) with
      | inr e => inr e
      | inl inner =>
          inl (t, match inner with
                  | Some x => str_or (trim x) ""
                  | None => ""
                  end)
      end
  end.

Definition is_delay (c : call) : bool :=
  match c with Delay _ => true | _ => false end.

Definition is_title_call (c : call) : bool :=
  match c with Browser OpTitle => true | _ => false end.

Definition is_reputation_call (c : call) : bool :=
  match c with ApivoidPost _ => true | _ => false end.

Definition is_proxy_call (c : call) : bool :=
  match c with ScraperApiGet _ => true | _ => false end.

Definition is_browser_call (c : call) : bool :=
  match c with Browser _ | Delay _ => true | _ => false end.

(** how many calls of a log satisfy [f] *)
Definition count_calls (f : call -> bool) (l : list call) : nat :=
  length (List.filter f l).

(** the address that [scraperApiFetch] requests *)
Definition scraper_api_url (env : environment) (url : string) : string :=
  "https://api.scraperapi.com?api_key=" ++ SCRAPERAPI_KEY env
  ++ "&render=true&url=" ++ encodeURIComponent url.

(** the state in which [withPage] hands the page to its callback, when the
    three set-up calls succeed *)
Definition page_ready (w : world) (s : clock_log) : clock_log :=
  {| now := now s + latency (getBrowser w) + latency (newPage w)
            + latency (setRequestInterception w);
     calls := calls s ++ [Browser OpGetBrowser; Browser OpNewPage;
                          Browser OpSetRequestInterception] |}.

(** *** The browser singleton

    [let browserPromise; async function getBrowser()]: the promise of the
    first [puppeteer.launch] is kept and handed to every caller.
    [launch n] is the fate of the [n]-th launch; [launches] counts them. *)

Record browser_cell : Type := {
  browserPromise : option (fate unit);
  launches : nat
}.

Definition getBrowser_cached (launch : nat -> fate unit) (c : browser_cell)
  : browser_cell * fate unit :=
  match browserPromise c with
  | Some p => (c, p)
  | None =>
      let p := launch (launches c) in
      ({| browserPromise := Some p; launches := S (launches c) |}, p)
  end.

(** [k] calls of [getBrowser] in a row, with the promises they return *)
Fixpoint getBrowser_calls (launch : nat -> fate unit) (k : nat) (c : browser_cell)
  : browser_cell * list (fate unit) :=
  match k with
  | O => (c, [])
  | S k' =>
      let (c1, p) := getBrowser_cached launch c in
      let (c2, ps) := getBrowser_calls launch k' c1 in
      (c2, p :: ps)
  end.

(** *** Encoded text

    [encode_unit] is the encoding of one unit, as [encodeURIComponent]
    writes it; [decode_unit] reads one encoded unit back. *)

Definition hex_value (c : ascii) : N :=
  let n := code c in if n <? 58 then n - 48 else n - 55.

(** reads one encoded unit off the front of an encoded string *)
Definition decode_unit (s : string) : option (ascii * string) :=
  match s with
  | String "%" (String h1 (String h2 r)) =>
      let b := 16 * hex_value h1 + hex_value h2 in
      if b <? 128 then Some (ascii_of_N b, r)
      else match r with
           | String "%" (String h3 (String h4 r')) =>
               let b2 := 16 * hex_value h3 + hex_value h4 in
               Some (ascii_of_N ((b - 192) * 64 + (b2 - 128)), r')
           | _ => None
           end
  | String c r => Some (c, r)
  | EmptyString => None
  end.

Definition encode_unit (c : ascii) : string :=
  if is_unreserved c then String c EmptyString
  else if code c <? 128 then percent (code c)
  else percent (192 + code c / 64) ++ percent (128 + code c mod 64).

Definition is_encoded_unit (c : ascii) : bool :=
  is_unreserved c || Ascii.eqb c "%".

Fixpoint string_forall (P : ascii -> bool) (s : string) : bool :=
  match s with
  | EmptyString => true
  | String c s' => P c && string_forall P s'
  end.

(** ** Examples *)

Example looksLikeCaptcha_ex1 : looksLikeCaptcha "Please solve the CAPTCHA" "" = true.
Proof. reflexivity. Qed.

Example looksLikeCaptcha_ex2 : looksLikeCaptcha "" "" = false.
Proof. reflexivity. Qed.

Example num_to_string_ex : num_to_string 404 = "404" /\ num_to_string 0 = "0".
Proof. split; reflexivity. Qed.

Example htmlToText_ex :
  htmlToText "<html><head><title>Hi</title><SCRIPT>var a = 1 < 2;</script></head><body> <p>Hello,   world</p> </body></html>"
  = "Hi Hello, world".
Proof. reflexivity. Qed.

Example match_title_ex :
  match_title "<html><TITLE lang=en> A page </Title><body>x</body>" = Some " A page ".
Proof. reflexivity. Qed.

Example trim_ex : trim "  a b  " = "a b" /\ trim "   " = "".
Proof. split; reflexivity. Qed.

Example encodeURIComponent_ex :
  encodeURIComponent "https://a.io/x y?q=1" = "https%3A%2F%2Fa.io%2Fx%20y%3Fq%3D1".
Proof. reflexivity. Qed.

Example parse_ex1 :
  Sample.parse "HTTPS://Example.com" =
  Some {| protocol := "https:"; href := "https://example.com/"; hostname := "example.com" |}.
Proof. reflexivity. Qed.

Example parse_ex2 : Sample.parse "foobar" = None.
Proof. reflexivity. Qed.

Example normalizeUrl_ex :
  normalizeUrl (Sample.env "k" "k") (JStr "ftp://example.com/x") = None
  /\ normalizeUrl (Sample.env "k" "k") (JStr "http://example.com/x") = Some "http://example.com/x"
  /\ normalizeUrl (Sample.env "k" "k") (JNum "1") = None.
Proof. repeat split; reflexivity. Qed.

(** * Properties *)

(** ** Strings *)

Lemma starts_with_iff (n s : string) :
  starts_with n s = true <-> exists post, s = n ++ post.
Proof.
  revert s. induction n as [|a n IH]; intros s; simpl.
  - split; [intros _; exists s; reflexivity | reflexivity].
  - destruct s as [|b s]; simpl.
    + split; [discriminate | intros [post H]; discriminate].
    + rewrite andb_true_iff, IH, Ascii.eqb_eq. split.
      * intros [-> [post ->]]. exists post. reflexivity.
      * intros [post H]. injection H as -> ->. split; [reflexivity | exists post; reflexivity].
Qed.

Lemma includes_iff (s n : string) :
  includes s n = true <-> exists pre post, s = pre ++ n ++ post.
Proof.
  induction s as [|c s IH]; simpl.
  - rewrite orb_false_r, starts_with_iff. split.
    + intros [post H]. exists "", post. exact H.
    + intros (pre & post & H). destruct pre; simpl in H.
      * exists post. exact H.
      * discriminate.
  - rewrite orb_true_iff, starts_with_iff, IH. split.
    + intros [[post H] | (pre & post & H)].
      * exists "", post. exact H.
      * exists (String c pre), post. simpl. congruence.
    + intros (pre & post & H). destruct pre as [|c' pre]; simpl in H.
      * left. exists post. exact H.
      * right. exists pre, post. congruence.
Qed.

Lemma map_units_app f (a b : string) :
  map_units f (a ++ b) = map_units f a ++ map_units f b.
Proof. induction a; simpl; congruence. Qed.

Lemma map_units_split f (s a b : string) :
  map_units f s = a ++ b ->
  exists a' b', s = a' ++ b' /\ map_units f a' = a /\ map_units f b' = b.
Proof.
  revert s. induction a as [|x a IH]; intros s H; simpl in H.
  - exists "", s. auto.
  - destruct s as [|c s]; simpl in H; [discriminate|].
    injection H as Hx Hs. destruct (IH _ Hs) as (a' & b' & -> & Ha & Hb).
    exists (String c a'), b'. simpl. repeat split; congruence.
Qed.

Lemma map_units_length f (s : string) :
  String.length (map_units f s) = String.length s.
Proof. induction s; simpl; congruence. Qed.

Lemma toLowerCase_map (s : string) : toLowerCase s = map_units lower_unit s.
Proof. induction s; simpl; congruence. Qed.

Lemma includes_map_iff f (s n : string) :
  includes (map_units f s) n = true <-> occurs_upto f n s.
Proof.
  rewrite includes_iff. unfold occurs_upto. split.
  - intros (pre & post & H).
    destruct (map_units_split _ _ _ _ H) as (pre' & r & -> & _ & Hr).
    destruct (map_units_split _ _ _ _ Hr) as (mid & post' & -> & Hm & _).
    exists pre', mid, post'. auto.
  - intros (pre & mid & post & -> & Hm).
    exists (map_units f pre), (map_units f post).
    rewrite !map_units_app. congruence.
Qed.

Lemma includes_lower_iff (s n : string) :
  includes (toLowerCase s) n = true <-> occurs_ci n s.
Proof. rewrite toLowerCase_map. apply includes_map_iff. Qed.

Lemma lower_unit_idem (c : ascii) : lower_unit (lower_unit c) = lower_unit c.
Proof. destruct c as [[] [] [] [] [] [] [] []]; reflexivity. Qed.

Lemma toLowerCase_idem (s : string) : toLowerCase (toLowerCase s) = toLowerCase s.
Proof. induction s; simpl; [|rewrite lower_unit_idem]; congruence. Qed.

Lemma toLowerCase_length (s : string) : js_length (toLowerCase s) = js_length s.
Proof. unfold js_length. rewrite toLowerCase_map, map_units_length. reflexivity. Qed.

Lemma str_or_empty (s : string) : str_or s "" = s.
Proof. unfold str_or. destruct s; reflexivity. Qed.

Lemma str_or_nonempty (a b : string) : b <> "" -> str_or a b <> "".
Proof.
  unfold str_or. destruct (String.eqb_spec a ""); congruence.
Qed.

Lemma opt_or_nonempty (a : option string) (b : string) : b <> "" -> opt_or a b <> "".
Proof. destruct a; simpl; [apply str_or_nonempty | auto]. Qed.

(** ** The classifier *)

Lemma existsb_mentions (phrases : list string) (text_ title_ : string) :
  existsb (fun n => includes (toLowerCase title_) n || includes (toLowerCase text_) n) phrases
  = true
  <-> exists n, In n phrases /\ mentions n text_ title_.
Proof.
  rewrite existsb_exists. unfold mentions.
  split; intros (n & Hin & H); exists n; split; auto.
  - apply orb_true_iff in H. rewrite !includes_lower_iff in H. exact H.
  - apply orb_true_iff. rewrite !includes_lower_iff. exact H.
Qed.

Lemma looksLikeCaptcha_unfold (text_ title_ : string) :
  looksLikeCaptcha text_ title_ =
  existsb (fun n => includes (toLowerCase title_) n || includes (toLowerCase text_) n) strong
  || (existsb (fun n => includes (toLowerCase title_) n || includes (toLowerCase text_) n) generic
      && (js_length text_ <? MIN_TEXT_FOR_OK)).
Proof.
  unfold looksLikeCaptcha. rewrite !str_or_empty.
  destruct (existsb _ strong); reflexivity.
Qed.

Lemma looksLikeCaptcha_blocked (text_ title_ : string) :
  looksLikeCaptcha text_ title_ = true <-> blocked text_ title_.
Proof.
  rewrite looksLikeCaptcha_unfold, orb_true_iff, andb_true_iff, !existsb_mentions, N.ltb_lt.
  reflexivity.
Qed.

Lemma looksLikeCaptcha_lower (text_ title_ : string) :
  looksLikeCaptcha (toLowerCase text_) (toLowerCase title_) = looksLikeCaptcha text_ title_.
Proof.
  rewrite !looksLikeCaptcha_unfold, !toLowerCase_idem, toLowerCase_length. reflexivity.
Qed.

(** C5. The classifier is a function of (text, title) that ignores case: it
    answers blocked exactly when one of the seven strong bot-wall phrases
    occurs in either field, whatever the length, or one of the four generic
    CAPTCHA terms occurs in either field and the text is shorter than 300;
    in every other case it answers not blocked. *)
Theorem looksLikeCaptcha_spec (text_ title_ : string) :
  strong = [ "attention required"; "access denied"; "cloudflare"; "unusual traffic";
             "verify you are human"; "bot detected"; "press and hold" ]
  /\ generic = [ "captcha"; "hcaptcha"; "recaptcha"; "are you a robot" ]
  /\ MIN_TEXT_FOR_OK = 300
  /\ (looksLikeCaptcha text_ title_ = true <-> blocked text_ title_)
  /\ (looksLikeCaptcha text_ title_ = false <-> ~ blocked text_ title_)
  /\ looksLikeCaptcha (toLowerCase text_) (toLowerCase title_) = looksLikeCaptcha text_ title_.
Proof.
  split; [reflexivity|]. split; [reflexivity|]. split; [reflexivity|].
  split; [apply looksLikeCaptcha_blocked|].
  split; [|apply looksLikeCaptcha_lower].
  rewrite <- looksLikeCaptcha_blocked. destruct (looksLikeCaptcha text_ title_); split; congruence.
Qed.

(** C10. With no strong phrase in either field: a text of 300 units or more
    is not blocked, even when the title carries a generic CAPTCHA term; a text
    shorter than 300 with a generic term in either field is blocked. *)
Theorem looksLikeCaptcha_threshold_on_text (text_ title_ : string) :
  (forall n, In n strong -> ~ mentions n text_ title_) ->
  (300 <= js_length text_ -> looksLikeCaptcha text_ title_ = false)
  /\ (js_length text_ < 300 ->
      (exists n, In n generic /\ mentions n text_ title_) ->
      looksLikeCaptcha text_ title_ = true).
Proof.
  intros Hstrong.
  assert (Hs : existsb (fun n => includes (toLowerCase title_) n
                                 || includes (toLowerCase text_) n) strong = false).
  { apply not_true_is_false. rewrite existsb_mentions. intros (n & Hin & Hm).
    exact (Hstrong n Hin Hm). }
  rewrite looksLikeCaptcha_unfold, Hs, orb_false_l. split.
  - intros Hlen. apply andb_false_iff. right. apply N.ltb_ge. exact Hlen.
  - intros Hlen Hgen. apply andb_true_iff. split.
    + apply existsb_mentions. exact Hgen.
    + apply N.ltb_lt. exact Hlen.
Qed.

Lemma looksLikeCaptcha_threshold_witness :
  ((forall n, In n strong -> ~ mentions n Sample.long_text "reCAPTCHA")
   /\ 300 <= js_length Sample.long_text
   /\ looksLikeCaptcha Sample.long_text "reCAPTCHA" = false)
  /\ ((forall n, In n strong -> ~ mentions n "solve the captcha" "")
      /\ js_length "solve the captcha" < 300
      /\ (exists n, In n generic /\ mentions n "solve the captcha" "")
      /\ looksLikeCaptcha "solve the captcha" "" = true).
Proof.
  assert (H1 : forall n, In n strong -> ~ mentions n Sample.long_text "reCAPTCHA").
  { intros n Hin Hm.
    assert (H : existsb (fun n => includes (toLowerCase "reCAPTCHA") n
                                  || includes (toLowerCase Sample.long_text) n) strong = true)
      by (apply existsb_mentions; exists n; auto).
    vm_compute in H. discriminate. }
  assert (H2 : forall n, In n strong -> ~ mentions n "solve the captcha" "").
  { intros n Hin Hm.
    assert (H : existsb (fun n => includes (toLowerCase "") n
                                  || includes (toLowerCase "solve the captcha") n) strong = true)
      by (apply existsb_mentions; exists n; auto).
    vm_compute in H. discriminate. }
  assert (H3 : exists n, In n generic /\ mentions n "solve the captcha" "").
  { apply existsb_mentions. vm_compute. reflexivity. }
  assert (L1 : 300 <= js_length Sample.long_text) by (vm_compute; discriminate).
  assert (L2 : js_length "solve the captcha" < 300) by (vm_compute; reflexivity).
  split.
  - split; [exact H1|]. split; [exact L1|].
    exact (proj1 (looksLikeCaptcha_threshold_on_text Sample.long_text "reCAPTCHA" H1) L1).
  - split; [exact H2|]. split; [exact L2|]. split; [exact H3|].
    exact (proj2 (looksLikeCaptcha_threshold_on_text "solve the captcha" "" H2) L2 H3).
Defined.

Lemma looksLikeCaptcha_spec_witness :
  (looksLikeCaptcha "Access Denied" "" = true <-> blocked "Access Denied" "")
  /\ looksLikeCaptcha "Access Denied" "" = true.
Proof.
  split.
  - exact (proj1 (proj2 (proj2 (proj2 (looksLikeCaptcha_spec "Access Denied" ""))))).
  - reflexivity.
Defined.

(** ** Regular-expression tests *)

Lemma starts_with_ci_iff (p s : string) :
  starts_with_ci p s = true <-> exists mid post, s = mid ++ post /\ map_units fold_unit mid = p.
Proof.
  revert s. induction p as [|a p IH]; intros s; simpl.
  - split; [intros _; exists "", s; auto | reflexivity].
  - destruct s as [|b s].
    + split; [discriminate|]. intros (mid & post & H & Hm).
      destruct mid; simpl in *; discriminate.
    + rewrite andb_true_iff, IH, Ascii.eqb_eq. split.
      * intros [-> (mid & post & -> & <-)]. exists (String b mid), post. auto.
      * intros (mid & post & H & Hm). destruct mid as [|c mid]; simpl in *; [discriminate|].
        injection H as -> ->. injection Hm as -> <-. split; [reflexivity|].
        exists mid, post. auto.
Qed.

Lemma test_ci_iff (p s : string) : test_ci p s = true <-> matches_i p s.
Proof.
  unfold test_ci, matches_i, occurs_upto. induction s as [|c s IH]; simpl.
  - destruct (starts_with_ci p "") eqn:E.
    + split; [intros _|reflexivity].
      apply starts_with_ci_iff in E as (mid & post & H & Hm). exists "", mid, post. auto.
    + split; [discriminate|]. intros (pre & mid & post & H & Hm).
      destruct pre; simpl in H; [|discriminate].
      assert (starts_with_ci p "" = true) by (apply starts_with_ci_iff; eauto). congruence.
  - destruct (starts_with_ci p (String c s)) eqn:E.
    + split; [intros _|reflexivity].
      apply starts_with_ci_iff in E as (mid & post & H & Hm). exists "", mid, post. auto.
    + destruct (index_ci p s) eqn:Ei; simpl.
      * split; [intros _|reflexivity].
        destruct (proj1 IH eq_refl) as (pre & mid & post & -> & Hm).
        exists (String c pre), mid, post. auto.
      * split; [discriminate|]. intros (pre & mid & post & H & Hm).
        destruct pre as [|c' pre]; simpl in H.
        -- assert (starts_with_ci p (String c s) = true)
             by (apply starts_with_ci_iff; eauto).
           congruence.
        -- injection H as -> ->.
           assert (false = true) by (apply IH; eauto). discriminate.
Qed.

(** ** The reputation checker *)

Lemma eqb_empty_false (s : string) : s <> "" -> String.eqb s "" = false.
Proof. intros H. apply String.eqb_neq. exact H. Qed.

Lemma truthy_iff (o : option string) :
  negb (String.eqb (opt_or o "") "") = true <-> opt_or o "" <> "".
Proof.
  rewrite negb_true_iff. split.
  - intros H. apply String.eqb_neq. exact H.
  - apply eqb_empty_false.
Qed.

Lemma apivoidCheck_missing_key env w host s :
  APIVOID_KEY env = "" ->
  apivoidCheck env w host s
  = (s, inl (ApiFail "apivoid_api_key" "APIVoid API key is missing.")).
Proof. intros H. unfold apivoidCheck. rewrite H. reflexivity. Qed.

Lemma apivoidCheck_returns env w host s :
  exists s' r, apivoidCheck env w host s = (s', inl r).
Proof.
  unfold apivoidCheck. destruct (String.eqb (APIVOID_KEY env) ""); [unfold ret; eauto|].
  destruct host as [[|c h]|]; [unfold ret; eauto | | unfold ret; eauto].
  unfold try_catch, bind, await, ret.
  destruct (settles (apivoid_post w (String c h))) as [resp|e]; [|eauto].
  repeat match goal with
         | |- context [if ?b then _ else _] => destruct b
         end; eauto.
Qed.

(** C6. With a credential and a host, the checker classifies the answer of
    the reputation service by the first rule that applies: a transport or
    timeout error gives fail/apivoid_api_key; an HTTP status of 400 or more, or
    an error field, gives fail/wrong_format when the error text matches
    "domain name is not valid" under the [i] flag and fail/apivoid_api_key
    otherwise; on a success shape, a false [a_records_found] gives
    fail/a_records_not_found, else a true [parked_domain] gives
    fail/parked_domain, else ok. *)
Theorem apivoidCheck_classification env w (h : string) s :
  APIVOID_KEY env <> "" -> h <> "" ->
  exists s' r,
    apivoidCheck env w (Some h) s = (s', inl r) /\
    match settles (apivoid_post w h) with
    | inr e => reason_of r = Some "apivoid_api_key"
    | inl resp =>
        (400 <= status resp \/ has_error resp ->
           (matches_i "domain name is not valid" (error_text resp) ->
              reason_of r = Some "wrong_format")
           /\ (~ matches_i "domain name is not valid" (error_text resp) ->
                 r = ApiFail "apivoid_api_key" (error_text resp)))
        /\ (status resp < 400 -> ~ has_error resp ->
              (flag a_records_found resp = false ->
                 reason_of r = Some "a_records_not_found")
              /\ (flag a_records_found resp = true -> flag parked_domain resp = true ->
                    reason_of r = Some "parked_domain")
              /\ (flag a_records_found resp = true -> flag parked_domain resp = false ->
                    r = ApiOk))
    end.
Proof.
  intros Hkey Hh. unfold apivoidCheck. rewrite (eqb_empty_false _ Hkey).
  destruct h as [|c h]; [congruence|].
  unfold try_catch, bind, await, ret.
  destruct (settles (apivoid_post w (String c h))) as [resp|e]; [|eauto].
  fold (response_error resp). fold (error_text resp).
  fold (flag a_records_found resp). fold (flag parked_domain resp).
  destruct ((400 <=? status resp) || negb (String.eqb (opt_or (response_error resp) "") ""))
    eqn:Herr.
  - assert (Hno : ~ (status resp < 400 /\ ~ has_error resp)).
    { intros [Hlt Hne]. apply orb_true_iff in Herr as [H|H].
      - apply N.leb_le in H. lia.
      - apply truthy_iff in H. exact (Hne H). }
    destruct (test_ci "domain name is not valid" (error_text resp)) eqn:Hdom.
    + eexists _, _. split; [reflexivity|]. split.
      * intros _. split; [reflexivity|]. intros Hn. exfalso. apply Hn, test_ci_iff, Hdom.
      * intros H1 H2. exfalso. apply Hno. auto.
    + assert (Hn : ~ matches_i "domain name is not valid" (error_text resp))
        by (rewrite <- test_ci_iff; congruence).
      match goal with |- context [if ?b then _ else _] => destruct b end; eexists _, _; (split; [reflexivity|]); split;
        try (intros _; split; [intros H; contradiction | reflexivity]);
        intros H1 H2; exfalso; apply Hno; auto.
  - apply orb_false_iff in Herr as [Hst Hne].
    apply N.leb_gt in Hst.
    assert (Hnoerr : ~ has_error resp).
    { intros H. apply truthy_iff in H. congruence. }
    destruct (flag a_records_found resp) eqn:Ha; simpl;
      [destruct (flag parked_domain resp) eqn:Hp|];
      eexists _, _; (split; [reflexivity|]); split;
      try (intros [H|H]; [lia | contradiction]);
      intros _ _; repeat split; intros; try reflexivity; try discriminate.
Qed.

(** ** The fetchers *)

Lemma scraperApiFetch_returns env w url s :
  exists s' v,
    scraperApiFetch env w url s = (s', inl v)
    /\ (ok v = false ->
        reason v = Some "scraperapi" /\ exists m, text v = Some m /\ m <> "").
Proof.
  unfold scraperApiFetch.
  destruct (String.eqb (SCRAPERAPI_KEY env) "").
  - unfold ret. eexists _, _. split; [reflexivity|]. intros _. simpl.
    split; [reflexivity|]. eexists. split; [reflexivity|discriminate].
  - unfold try_catch, bind, await, ret.
    destruct (settles (scraper_get w _)) as [resp|e].
    + destruct (400 <=? status resp); eexists _, _; (split; [reflexivity|]); simpl.
      * intros _. split; [reflexivity|]. eexists. split; [reflexivity|discriminate].
      * discriminate.
    + eexists _, _. split; [reflexivity|]. intros _. simpl.
      split; [reflexivity|]. eexists. split; [reflexivity|discriminate].
Qed.


Lemma hardCap_in_time {A} (m : M A) s s' r :
  m s = (s', r) -> now s' - now s < PER_URL_TIMEOUT_MS -> hardCap m s = (s', r).
Proof.
  intros H Hlt. unfold hardCap. rewrite H.
  apply N.ltb_lt in Hlt. rewrite Hlt. reflexivity.
Qed.


(** ** The pipeline *)

Lemma apivoidCheck_fail_nonempty env w host s s' reason_ text_ :
  apivoidCheck env w host s = (s', inl (ApiFail reason_ text_)) ->
  reason_ <> "" /\ text_ <> "".
Proof.
  unfold apivoidCheck.
  destruct (String.eqb (APIVOID_KEY env) "");
    [unfold ret; intros [= <- <- <-]; split; discriminate|].
  destruct host as [[|c h]|];
    try (unfold ret; intros [= <- <- <-]; split; discriminate).
  unfold try_catch, bind, await, ret.
  destruct (settles (apivoid_post w (String c h))) as [resp|e];
    [|intros [= <- <- <-]; split; discriminate].
  fold (response_error resp). fold (error_text resp).
  assert (Hmsg : error_text resp <> "") by (apply opt_or_nonempty; discriminate).
  repeat match goal with
         | |- context [if ?b then _ else _] => destruct b
         end; intros [= <- <- <-]; split; try discriminate; exact Hmsg.
Qed.

(** An input with a string form that fails the format check: the pipeline
    returns the wrong_format result at once. *)
Lemma processOne_wrong_format env w u s text :
  normalizeUrl env u = None -> to_string u = inl text ->
  processOne env w u s
  = (s, inl {| r_status := "failure"; url_input := u;
               failure_reason := "wrong_format";
               failure_text := "The input url `" ++ text
                               ++ "` is not properly formatted.";
               scraped_text := ""; ms := 0 |}).
Proof.
  intros Hn Ht. unfold processOne, bind, Date_now, ret. rewrite Hn, Ht.
  rewrite N.sub_diag. reflexivity.
Qed.

(** An input that [String] cannot convert fails the format check, and the
    pipeline throws the error of the conversion at once, with no call. *)
Lemma processOne_unconvertible env w u s e :
  to_string u = inr e ->
  normalizeUrl env u = None /\ processOne env w u s = (s, inr e).
Proof.
  intros Ht. assert (Hn : normalizeUrl env u = None)
    by (unfold normalizeUrl; rewrite Ht; reflexivity).
  split; [exact Hn|].
  unfold processOne, bind, Date_now, ret, throw. rewrite Hn, Ht. reflexivity.
Qed.


(** An error leaves the pipeline in two ways only.  Either the input has no
    string form, and the error is the one of the conversion, thrown before any
    call; or the input passed the format check and the reputation check, the
    primary render succeeded and was flagged, and the fallback fetch had not
    settled when the 60 s timer fired. *)
Lemma processOne_throws env w u s s' e :
  processOne env w u s = (s', inr e) ->
  (to_string u = inr e /\ s' = s)
  \/ (e = Error "timeout"
      /\ exists url s1 s2 pptr,
           normalizeUrl env u = Some url
           /\ apivoidCheck env w (hostOnly env url) s = (s1, inl ApiOk)
           /\ hardCap (puppeteerFetch w url) s1 = (s2, inl pptr)
           /\ ok pptr = true
           /\ looksLikeCaptcha (content pptr) (title pptr) = true
           /\ PER_URL_TIMEOUT_MS <= now (fst (scraperApiFetch env w url s2)) - now s2).
Proof.
  destruct (normalizeUrl env u) as [url|] eqn:Hn.
  2:{ destruct (to_string u) as [text|e0] eqn:Ht.
      - rewrite (processOne_wrong_format env w u s text Hn Ht). discriminate.
      - rewrite (proj2 (processOne_unconvertible env w u s e0 Ht)).
        intros [= <- <-]. left. auto. }
  intros Hrun. right. revert Hrun.
  unfold processOne, bind, Date_now, ret. rewrite Hn.
  destruct (apivoidCheck_returns env w (hostOnly env url) s) as (s1 & a & Ha).
  rewrite Ha. destruct a as [|reason_ text_]; [|discriminate].
  unfold try_catch.
  destruct (hardCap (puppeteerFetch w url) s1) as [s2 [pptr|e0]] eqn:Hp; simpl;
    [|discriminate].
  destruct (ok pptr) eqn:Hok; simpl; [|discriminate].
  destruct (looksLikeCaptcha (content pptr) (title pptr)) eqn:Hflag; simpl; [|discriminate].
  destruct (scraperApiFetch_returns env w url s2) as (s3 & v & Hv & _).
  unfold hardCap at 1. rewrite Hv.
  destruct (now s3 - now s2 <? PER_URL_TIMEOUT_MS) eqn:Hlt.
  - destruct (ok v); simpl; [destruct (looksLikeCaptcha (content v) (title v))|];
      discriminate.
  - intros [= <- <-]. split; [reflexivity|].
    exists url, s1, s2, pptr. repeat split; auto.
    rewrite Hv. simpl. apply N.ltb_ge. exact Hlt.
Qed.

Lemma hardCap_calls {A} (m : M A) s :
  calls (fst (hardCap m s)) = calls (fst (m s)).
Proof.
  unfold hardCap. destruct (m s) as [s' r].
  destruct (now s' - now s <? PER_URL_TIMEOUT_MS); reflexivity.
Qed.

Lemma scraperApiFetch_calls env w url s :
  SCRAPERAPI_KEY env <> "" ->
  calls (fst (scraperApiFetch env w url s))
  = (calls s ++ [ScraperApiGet ("https://api.scraperapi.com?api_key=" ++ SCRAPERAPI_KEY env
                                ++ "&render=true&url=" ++ encodeURIComponent url)])%list.
Proof.
  intros Hkey. unfold scraperApiFetch. rewrite (eqb_empty_false _ Hkey).
  unfold try_catch, bind, await, ret.
  destruct (settles (scraper_get w _)) as [resp|e]; [destruct (400 <=? status resp)|];
    reflexivity.
Qed.

(** C4, as amended. Without the reputation credential every input string
    that passes the format check ends as a failure with reason
    apivoid_api_key and the text "APIVoid API key is missing."; an input
    string that fails the format check ends as a failure with reason
    wrong_format.  In both cases the pipeline makes no call at all, so none
    to the reputation service.  The same holds for every item that [String]
    converts, with [text] its string form ([text] is the string itself for a
    string). *)
Theorem missing_credential env w u s text :
  APIVOID_KEY env = "" ->
  to_string u = inl text ->
  exists res,
    processOne env w u s = (s, inl res)
    /\ calls (fst (processOne env w u s)) = calls s
    /\ r_status res = "failure" /\ url_input res = u /\ scraped_text res = ""
    /\ (normalizeUrl env u <> None ->
        failure_reason res = "apivoid_api_key"
        /\ failure_text res = "APIVoid API key is missing.")
    /\ (normalizeUrl env u = None ->
        failure_reason res = "wrong_format"
        /\ failure_text res = "The input url `" ++ text ++ "` is not properly formatted.").
Proof.
  intros Hkey Ht.
  destruct (normalizeUrl env u) as [url|] eqn:Hn.
  - unfold processOne, bind, Date_now, ret. rewrite Hn.
    rewrite (apivoidCheck_missing_key _ _ _ _ Hkey).
    eexists. split; [reflexivity|]. simpl. repeat split; auto. all: discriminate.
  - rewrite (processOne_wrong_format env w u s text Hn Ht).
    eexists. split; [reflexivity|]. simpl. repeat split; auto; congruence.
Qed.

(** The fallback within its deadline.  When the primary render succeeds and
    the classifier flags its content, the fallback fetcher is called; once it
    settles within the deadline, a failed fetch ends the task as
    Failure(scraperapi) with the fetcher's message, a fetched page that the
    classifier flags again ends it as Failure(scraperapi), and any other
    fetched page ends it as Success with the fallback text as
    [scraped_text]. *)
Theorem fallback_after_flagged_render env w u url s s1 s2 pptr :
  normalizeUrl env u = Some url ->
  apivoidCheck env w (hostOnly env url) s = (s1, inl ApiOk) ->
  hardCap (puppeteerFetch w url) s1 = (s2, inl pptr) ->
  ok pptr = true ->
  looksLikeCaptcha (content pptr) (title pptr) = true ->
  (SCRAPERAPI_KEY env <> "" ->
   In (ScraperApiGet ("https://api.scraperapi.com?api_key=" ++ SCRAPERAPI_KEY env
                      ++ "&render=true&url=" ++ encodeURIComponent url))
      (calls (fst (processOne env w u s))))
  /\ (forall s3 v,
        scraperApiFetch env w url s2 = (s3, inl v) ->
        now s3 - now s2 < PER_URL_TIMEOUT_MS ->
        exists res,
          processOne env w u s = (s3, inl res)
          /\ (ok v = false ->
              r_status res = "failure" /\ failure_reason res = "scraperapi"
              /\ Some (failure_text res) = text v /\ scraped_text res = "")
          /\ (ok v = true -> looksLikeCaptcha (content v) (title v) = true ->
              r_status res = "failure" /\ failure_reason res = "scraperapi"
              /\ failure_text res = "ScraperAPI returned CAPTCHA/short content."
              /\ scraped_text res = "")
          /\ (ok v = true -> looksLikeCaptcha (content v) (title v) = false ->
              r_status res = "success" /\ scraped_text res = content v)).
Proof.
  intros Hn Ha Hp Hok Hflag.
  split.
  - intros Hkey.
    assert (Hc : calls (fst (processOne env w u s))
                 = calls (fst (hardCap (scraperApiFetch env w url) s2))).
    { unfold processOne, bind, Date_now, ret, try_catch.
      rewrite Hn, Ha, Hp, Hok, Hflag. simpl.
      destruct (hardCap (scraperApiFetch env w url) s2) as [s3 [v|e]]; [|reflexivity].
      destruct (ok v); simpl; [destruct (looksLikeCaptcha (content v) (title v))|];
        reflexivity. }
    rewrite Hc, hardCap_calls, (scraperApiFetch_calls _ _ _ _ Hkey).
    apply in_or_app. right. left. reflexivity.
  - intros s3 v Hv Hlt.
    destruct (scraperApiFetch_returns env w url s2) as (s3' & v' & Hv' & Hfail).
    rewrite Hv in Hv'. injection Hv' as <- <-.
    unfold processOne, bind, Date_now, ret, try_catch.
    rewrite Hn, Ha, Hp, Hok, Hflag. simpl.
    rewrite (hardCap_in_time _ _ _ _ Hv Hlt).
    destruct (ok v) eqn:Hokv; simpl.
    + destruct (looksLikeCaptcha (content v) (title v)) eqn:Hbad;
        eexists; (split; [reflexivity|]); simpl;
        repeat split; try discriminate; congruence.
    + destruct (Hfail eq_refl) as (Hr & m & Hm & Hne).
      eexists. split; [reflexivity|]. simpl. rewrite Hr, Hm. simpl.
      unfold str_or. rewrite (eqb_empty_false _ Hne).
      repeat split; try discriminate; congruence.
Qed.

(** ** Evaluating the pipeline *)

(** C2. A page whose body has no text and whose title names no bot wall is
    not flagged, so the task ends as a success whose [scraped_text] is
    empty, with empty [failure_reason] and [failure_text] as well. *)
Theorem success_with_empty_text :
  let env := Sample.env "key" "key" in
  let w := Sample.a_world Sample.live
             (Sample.a_page (Some 200) "Blank" (Some ""))
             (Sample.html_reply 1000 200 "") in
  run_processOne env w (JStr "https://example.com/")
  = inl {| r_status := "success"; url_input := JStr "https://example.com/";
           failure_reason := ""; failure_text := ""; scraped_text := ""; ms := 1141 |}.
Proof. vm_compute. reflexivity. Qed.

(** The claim of C4 as it is written fails on an input that does not pass the
    format check: without the credential, "foobar" ends as wrong_format. *)
Lemma missing_credential_counterexample :
  ~ (forall env w (u : string),
        APIVOID_KEY env = "" ->
        exists res, run_processOne env w (JStr u) = inl res
                    /\ failure_reason res = "apivoid_api_key").
Proof.
  intros H.
  destruct (H (Sample.env "" "key")
              (Sample.a_world Sample.live (Sample.a_page (Some 200) "" (Some ""))
                 (Sample.html_reply 0 200 ""))
              "foobar" eq_refl) as (res & Hres & Hreason).
  vm_compute in Hres. injection Hres as <-. discriminate.
Qed.

Lemma missing_credential_witness :
  exists res,
    run_processOne (Sample.env "" "key")
      (Sample.a_world Sample.live (Sample.a_page (Some 200) "" (Some ""))
         (Sample.html_reply 0 200 ""))
      (JStr "https://example.com/") = inl res
    /\ failure_reason res = "apivoid_api_key".
Proof.
  destruct (missing_credential (Sample.env "" "key")
              (Sample.a_world Sample.live (Sample.a_page (Some 200) "" (Some ""))
                 (Sample.html_reply 0 200 ""))
              (JStr "https://example.com/") {| now := 0; calls := [] |}
              "https://example.com/" eq_refl eq_refl)
    as (res & Hrun & _ & _ & _ & _ & Hkey & _).
  exists res. split.
  - unfold run_processOne. rewrite Hrun. reflexivity.
  - apply Hkey. vm_compute. discriminate.
Defined.

Lemma apivoidCheck_classification_witness :
  exists s' r,
    apivoidCheck (Sample.env "key" "key")
      (Sample.a_world
         (fulfilled 250 {| status := 200;
                           data := Some {| error := None; a_records_found := true;
                                           parked_domain := true |} |})
         (Sample.a_page (Some 200) "" (Some "")) (Sample.html_reply 0 200 ""))
      (Some "example.com") {| now := 0; calls := [] |} = (s', inl r)
    /\ reason_of r = Some "parked_domain".
Proof.
  destruct (apivoidCheck_classification (Sample.env "key" "key")
              (Sample.a_world
                 (fulfilled 250 {| status := 200;
                                   data := Some {| error := None; a_records_found := true;
                                                   parked_domain := true |} |})
                 (Sample.a_page (Some 200) "" (Some "")) (Sample.html_reply 0 200 ""))
              "example.com" {| now := 0; calls := [] |})
    as (s' & r & Hrun & Hcls).
  - discriminate.
  - discriminate.
  - exists s', r. split; [exact Hrun|].
    simpl in Hcls. destruct Hcls as [_ Hok].
    apply Hok; try reflexivity.
    unfold has_error. simpl. intros H. apply H. reflexivity.
Defined.

Lemma fallback_after_flagged_render_witness :
  exists s3 res,
    processOne (Sample.env "key" "key")
      (Sample.a_world Sample.live
         (Sample.a_page (Some 200) "Just a moment" (Some "Please solve the captcha"))
         (Sample.html_reply 1500 200
            ("<html><head><title>Example</title></head><body><p>" ++ Sample.long_text
             ++ "</p></body></html>")))
      (JStr "https://example.com/") {| now := 0; calls := [] |} = (s3, inl res)
    /\ r_status res = "success"
    /\ scraped_text res = "Example " ++ trim Sample.long_text.
Proof.
  edestruct (fallback_after_flagged_render (Sample.env "key" "key")
               (Sample.a_world Sample.live
                  (Sample.a_page (Some 200) "Just a moment" (Some "Please solve the captcha"))
                  (Sample.html_reply 1500 200
                     ("<html><head><title>Example</title></head><body><p>"
                      ++ Sample.long_text ++ "</p></body></html>")))
               (JStr "https://example.com/") "https://example.com/"
               {| now := 0; calls := [] |}) as [_ H].
  - vm_compute. reflexivity.
  - vm_compute. reflexivity.
  - vm_compute. reflexivity.
  - reflexivity.
  - vm_compute. reflexivity.
  - edestruct H as (res & Hrun & _ & _ & Hsucc).
    + vm_compute. reflexivity.
    + vm_compute. reflexivity.
    + eexists _, res. split; [exact Hrun|].
      destruct Hsucc as [Hs Ht]; [reflexivity | vm_compute; reflexivity |].
      split; [exact Hs|]. rewrite Ht. vm_compute. reflexivity.
Defined.

(** ** The limiter *)

Section SchedulerFacts.

Context {T : Type}.
Implicit Types (s : scheduler T) (tasks : list (T + js_error)).

Lemma filter_ne_id (i : nat) (l : list nat) :
  i ∉ l -> filter (λ j, j ≠ i) l = l.
Proof.
  induction l as [|x l IH]; intros Hi; [reflexivity|].
  rewrite filter_cons. apply not_elem_of_cons in Hi as [Hne Hi].
  destruct (decide (x ≠ i)) as [|Hn]; [f_equal; auto | exfalso; apply Hn; congruence].
Qed.

Lemma length_filter_remove (i : nat) (l : list nat) :
  NoDup l -> i ∈ l -> S (length (filter (λ j, j ≠ i) l)) = length l.
Proof.
  induction l as [|x l IH]; intros Hnd Hi.
  - apply elem_of_nil in Hi. contradiction.
  - apply NoDup_cons in Hnd as [Hx Hnd]. rewrite filter_cons.
    destruct (decide (x ≠ i)) as [Hne|Heq].
    + apply elem_of_cons in Hi as [->|Hi]; [congruence|].
      simpl. f_equal. auto.
    + assert (x = i) as ->
        by (destruct (decide (x = i)) as [|Hn]; [assumption | exfalso; exact (Heq Hn)]).
      rewrite filter_ne_id by assumption. reflexivity.
Qed.

Lemma coherent_started_lt limit tasks k s i :
  coherent limit tasks k s -> i ∈ started s -> (i < k)%nat.
Proof.
  intros H Hi.
  assert (Hin : i ∈ seq 0 k) by (rewrite <- (coh_fifo _ _ _ _ H); apply elem_of_app; auto).
  apply elem_of_seq in Hin. lia.
Qed.

Lemma coherent_queued_fresh limit tasks k s j :
  coherent limit tasks k s -> j ∈ q s -> j ∉ started s.
Proof.
  intros H Hj Hs.
  pose proof (NoDup_seq 0 k) as Hnd. rewrite <- (coh_fifo _ _ _ _ H) in Hnd.
  apply NoDup_app in Hnd as (_ & Hdisj & _). exact (Hdisj j Hs Hj).
Qed.

Lemma coherent_idle limit tasks :
  (0 < limit)%Z -> coherent limit tasks 0 (idle (length tasks)).
Proof.
  intros Hl. constructor; simpl.
  - exact Hl.
  - reflexivity.
  - lia.
  - congruence.
  - reflexivity.
  - lia.
  - apply NoDup_nil_2.
  - intros i Hi. apply elem_of_nil in Hi. contradiction.
  - apply length_replicate.
  - intros i o H. apply lookup_replicate in H as [H _]. discriminate.
  - intros i Hi. apply elem_of_nil in Hi. contradiction.
  - discriminate.
  - intros _ i e H. apply lookup_replicate in H as [H _]. discriminate.
Qed.

Lemma coherent_limited limit tasks k s :
  coherent limit tasks k s -> (k < length tasks)%nat ->
  coherent limit tasks (S k) (limited limit k s).
Proof.
  intros H Hk. pose proof H as [Hl Ha Hb Hbusy Hfifo Hsub Hnd Hrun Hlen Hfill Hdone Hrej Hnorej].
  assert (Hfresh : k ∉ started s).
  { intros Hin. pose proof (coherent_started_lt _ _ _ _ _ H Hin). lia. }
  unfold limited. destruct (active s <? limit)%Z eqn:Hlt.
  - apply Z.ltb_lt in Hlt.
    assert (Hq : q s = []).
    { destruct (q s) eqn:E; [reflexivity|]. exfalso.
      assert (active s = limit) by (apply Hbusy; discriminate). lia. }
    constructor; unfold run_task; cbn -[seq].
    + exact Hl.
    + rewrite length_app. simpl. lia.
    + lia.
    + rewrite Hq. congruence.
    + rewrite Hq in *. rewrite app_nil_r in *. rewrite seq_S, <- Hfifo. reflexivity.
    + lia.
    + apply NoDup_app. split; [exact Hnd|]. split; [|apply NoDup_singleton].
      intros x Hx Hx'. apply list_elem_of_singleton in Hx' as ->. apply Hfresh, Hrun, Hx.
    + intros i Hi. apply elem_of_app in Hi as [Hi|Hi]; apply elem_of_app; auto.
    + exact Hlen.
    + intros i o Hs. destruct (Hfill i o Hs) as (Ht & Hst & Hnr).
      split; [exact Ht|]. split; [apply elem_of_app; auto|].
      intros Hin. apply elem_of_app in Hin as [Hin|Hin]; [auto|].
      apply list_elem_of_singleton in Hin as ->. auto.
    + intros i Hi Hnr. apply Hdone.
      * apply elem_of_app in Hi as [Hi|Hi]; [exact Hi|].
        exfalso. apply Hnr, elem_of_app. auto.
      * intros Hin. apply Hnr, elem_of_app. auto.
    + exact Hrej.
    + exact Hnorej.
  - apply Z.ltb_ge in Hlt.
    constructor; unfold run_task; cbn -[seq].
    + exact Hl.
    + exact Ha.
    + exact Hb.
    + intros _. lia.
    + rewrite app_assoc, Hfifo, seq_S. reflexivity.
    + lia.
    + exact Hnd.
    + exact Hrun.
    + exact Hlen.
    + exact Hfill.
    + exact Hdone.
    + exact Hrej.
    + exact Hnorej.
Qed.

Lemma coherent_submitted limit tasks k :
  (0 < limit)%Z -> (k <= length tasks)%nat ->
  coherent limit tasks k
    (fold_left (fun s i => limited limit i s) (seq 0 k) (idle (length tasks))).
Proof.
  intros Hl. induction k as [|k IH]; intros Hk.
  - apply coherent_idle, Hl.
  - rewrite seq_S, fold_left_app. simpl. apply coherent_limited; [apply IH|]; lia.
Qed.

Lemma coherent_submit_all limit tasks :
  (0 < limit)%Z ->
  coherent limit tasks (length tasks) (submit_all limit (length tasks)).
Proof. intros Hl. apply coherent_submitted; [exact Hl|lia]. Qed.


Lemma coherent_settle limit tasks k s i s' :
  coherent limit tasks k s -> settle tasks i s = Some s' -> coherent limit tasks k s'.
Proof.
  intros H Hs. pose proof H as [Hl Ha Hb Hbusy Hfifo Hsub Hnd Hrun Hlen Hfill Hdone Hrej Hnorej].
  unfold settle in Hs. destruct (tasks !! i) as [o|] eqn:Ho; [|discriminate].
  destruct (bool_decide (i ∈ running s)) eqn:Hi; [|discriminate].
  apply bool_decide_eq_true in Hi. injection Hs as <-.
  assert (Hist : i ∈ started s) by auto.
  assert (Hik : (i < length (slots s))%nat).
  { pose proof (coherent_started_lt _ _ _ _ _ H Hist). lia. }
  pose proof (length_filter_remove i (running s) Hnd Hi) as Hlenf.
  set (running' := filter (λ j, j ≠ i) (running s)) in *.
  set (slots' := <[i := Some o]> (slots s)).
  set (rejection' := match first_rejection s, o with
                     | None, inr e => Some e
                     | r, _ => r
                     end).
  assert (Hnd' : NoDup running') by (apply NoDup_filter, Hnd).
  assert (Hrun' : forall x, x ∈ running' -> x ∈ started s).
  { intros x Hx. apply list_elem_of_filter in Hx as [_ Hx]. auto. }
  assert (Hin' : forall x, x ∈ running' <-> x ≠ i /\ x ∈ running s).
  { intros x. exact (list_elem_of_filter (λ j, j ≠ i) (running s) x). }
  assert (Hfill' : forall x o', slots' !! x = Some (Some o') ->
                     tasks !! x = Some o' /\ x ∈ started s /\ x ∉ running').
  { intros x o' Hx. unfold slots' in Hx. destruct (decide (i = x)) as [<-|Hne].
    - rewrite list_lookup_insert_eq in Hx by exact Hik. injection Hx as <-.
      split; [exact Ho|]. split; [exact Hist|]. rewrite Hin'. intros [Hn _]. congruence.
    - rewrite list_lookup_insert_ne in Hx by exact Hne.
      destruct (Hfill x o' Hx) as (Ht & Hst & Hnr).
      split; [exact Ht|]. split; [exact Hst|]. rewrite Hin'. intros [_ Hr]. auto. }
  assert (Hdone' : forall x, x ∈ started s -> x ∉ running' ->
                     exists o', slots' !! x = Some (Some o')).
  { intros x Hx Hnr. unfold slots'. destruct (decide (i = x)) as [<-|Hne].
    - exists o. apply list_lookup_insert_eq, Hik.
    - rewrite list_lookup_insert_ne by exact Hne. apply Hdone; [exact Hx|].
      intros Hr. apply Hnr, Hin'. split; [congruence | exact Hr]. }
  assert (Hrej' : forall e, rejection' = Some e -> exists x, tasks !! x = Some (inr e)).
  { intros e He. unfold rejection' in He. destruct (first_rejection s) as [e0|].
    - apply Hrej. destruct o; exact He.
    - destruct o as [r|e1]; [discriminate|]. injection He as <-. exists i. exact Ho. }
  assert (Hnorej' : rejection' = None ->
                     forall x e, slots' !! x <> Some (Some (inr e))).
  { intros He x e Hx. unfold rejection' in He.
    destruct (first_rejection s) as [e0|] eqn:Hfr; [destruct o; discriminate|].
    destruct o as [r|e1]; [|discriminate].
    unfold slots' in Hx. destruct (decide (i = x)) as [<-|Hne].
    - rewrite list_lookup_insert_eq in Hx by exact Hik. discriminate.
    - rewrite list_lookup_insert_ne in Hx by exact Hne. exact (Hnorej eq_refl x e Hx). }
  assert (Hlen' : length slots' = length tasks)
    by (unfold slots'; rewrite length_insert; exact Hlen).
  unfold next. cbn -[seq]. destruct (q s) as [|j q'] eqn:Hq; unfold run_task; cbn -[seq].
  - constructor; cbn -[seq].
    + exact Hl.
    + lia.
    + lia.
    + congruence.
    + exact Hfifo.
    + exact Hsub.
    + exact Hnd'.
    + exact Hrun'.
    + exact Hlen'.
    + exact Hfill'.
    + exact Hdone'.
    + exact Hrej'.
    + exact Hnorej'.
  - assert (Hj : j ∉ started s).
    { apply (coherent_queued_fresh _ _ _ _ _ H). rewrite Hq. apply elem_of_cons. auto. }
    assert (Hfull : active s = limit) by (apply Hbusy; discriminate).
    constructor; cbn -[seq].
    + exact Hl.
    + rewrite length_app. simpl. lia.
    + lia.
    + intros _. lia.
    + rewrite <- app_assoc. exact Hfifo.
    + exact Hsub.
    + apply NoDup_app. split; [exact Hnd'|]. split; [|apply NoDup_singleton].
      intros x Hx Hx'. apply list_elem_of_singleton in Hx' as ->. apply Hj, Hrun', Hx.
    + intros x Hx. apply elem_of_app in Hx as [Hx|Hx]; apply elem_of_app; auto.
    + exact Hlen'.
    + intros x o' Hx. destruct (Hfill' x o' Hx) as (Ht & Hst & Hnr).
      split; [exact Ht|]. split; [apply elem_of_app; auto|].
      intros Hin. apply elem_of_app in Hin as [Hin|Hin]; [auto|].
      apply list_elem_of_singleton in Hin as ->. auto.
    + intros x Hx Hnr. apply Hdone'.
      * apply elem_of_app in Hx as [Hx|Hx]; [exact Hx|].
        exfalso. apply Hnr, elem_of_app. auto.
      * intros Hin. apply Hnr, elem_of_app. auto.
    + exact Hrej'.
    + exact Hnorej'.
Qed.

Lemma coherent_settle_in_order limit tasks k order s s' :
  coherent limit tasks k s -> settle_in_order tasks order s = Some s' ->
  coherent limit tasks k s'.
Proof.
  revert s. induction order as [|i order IH]; intros s H Hs; simpl in Hs.
  - injection Hs as <-. exact H.
  - destruct (settle tasks i s) as [s1|] eqn:E; [|discriminate].
    apply (IH s1); [|exact Hs]. exact (coherent_settle _ _ _ _ _ _ H E).
Qed.

(** What a completion does to the queue: its head, if any, starts; nothing
    else starts. *)
Lemma settle_starts_head tasks i s s' :
  settle tasks i s = Some s' ->
  match q s with
  | [] => started s' = started s /\ q s' = []
  | j :: q' => started s' = (started s ++ [j])%list /\ q s' = q' /\ j ∈ running s'
  end.
Proof.
  unfold settle. destruct (tasks !! i); [|discriminate].
  destruct (bool_decide (i ∈ running s)); [|discriminate].
  intros [= <-]. unfold next. cbn. destruct (q s) as [|j q']; cbn.
  - auto.
  - repeat split. apply elem_of_app. right. apply list_elem_of_singleton. reflexivity.
Qed.


Lemma settle_measure limit tasks k s i s' :
  coherent limit tasks k s -> settle tasks i s = Some s' ->
  S (length (running s') + length (q s')) = (length (running s) + length (q s))%nat.
Proof.
  intros H Hs. pose proof (coh_nodup _ _ _ _ H) as Hnd.
  unfold settle in Hs. destruct (tasks !! i) as [o|]; [|discriminate].
  destruct (bool_decide (i ∈ running s)) eqn:Hi; [|discriminate].
  apply bool_decide_eq_true in Hi. injection Hs as <-.
  pose proof (length_filter_remove i (running s) Hnd Hi) as Hlenf.
  unfold next. cbn. destruct (q s) as [|j q']; unfold run_task; cbn.
  - lia.
  - rewrite length_app. simpl. lia.
Qed.

Lemma settle_running limit tasks s i :
  coherent limit tasks (length tasks) s -> i ∈ running s ->
  exists s', settle tasks i s = Some s'.
Proof.
  intros H Hi. unfold settle.
  assert (Hlt : (i < length tasks)%nat).
  { apply (coherent_started_lt _ _ _ _ _ H), (coh_running _ _ _ _ H), Hi. }
  destruct (lookup_lt_is_Some_2 tasks i Hlt) as [o Ho]. rewrite Ho.
  rewrite bool_decide_eq_true_2 by exact Hi. eauto.
Qed.

(** The limiter never stalls: from every state that it can be in, the tasks
    that remain can all be run to the end. *)
Lemma settle_in_order_exists limit tasks s :
  coherent limit tasks (length tasks) s ->
  exists order s', settle_in_order tasks order s = Some s' /\ all_settled s' = true.
Proof.
  remember (length (running s) + length (q s))%nat as m eqn:Hm.
  revert s Hm. induction m as [|m IH]; intros s Hm H.
  - exists [], s. split; [reflexivity|]. unfold all_settled.
    destruct (running s); [|discriminate]. destruct (q s); [|discriminate]. reflexivity.
  - destruct (running s) as [|i r] eqn:Hr.
    + exfalso. pose proof (coh_active _ _ _ _ H) as Ha. rewrite Hr in Ha. simpl in Ha.
      destruct (q s) eqn:Hq; [simpl in Hm; discriminate|].
      assert (active s = limit) by (apply (coh_busy _ _ _ _ H); rewrite Hq; discriminate).
      pose proof (coh_limit _ _ _ _ H). lia.
    + assert (Hi : i ∈ running s) by (rewrite Hr; apply elem_of_cons; auto).
      destruct (settle_running _ _ _ _ H Hi) as [s1 Hs1].
      pose proof (settle_measure _ _ _ _ _ _ H Hs1) as Hmeas.
      destruct (IH s1) as (order & s' & Hrun & Hall).
      * rewrite Hr in Hmeas. lia.
      * exact (coherent_settle _ _ _ _ _ _ H Hs1).
      * exists (i :: order), s'. simpl. rewrite Hs1. auto.
Qed.

Lemma coherent_final limit tasks s :
  coherent limit tasks (length tasks) s -> all_settled s = true ->
  started s = seq 0 (length tasks) /\ slots s = Some <$> tasks.
Proof.
  intros H Hall. unfold all_settled in Hall. apply andb_true_iff in Hall as [Hr Hq].
  apply bool_decide_eq_true in Hr. apply bool_decide_eq_true in Hq.
  pose proof (coh_fifo _ _ _ _ H) as Hfifo. rewrite Hq, app_nil_r in Hfifo.
  split; [exact Hfifo|].
  apply list_eq. intros i. rewrite list_lookup_fmap.
  destruct (decide (i < length tasks)%nat) as [Hlt|Hge].
  - assert (Hi : i ∈ started s) by (rewrite Hfifo; apply elem_of_seq; lia).
    destruct (coh_done _ _ _ _ H i Hi) as [o Ho].
    { rewrite Hr. apply not_elem_of_nil. }
    destruct (coh_filled _ _ _ _ H i o Ho) as (Ht & _ & _).
    rewrite Ho, Ht. reflexivity.
  - rewrite (lookup_ge_None_2 tasks) by lia.
    rewrite lookup_ge_None_2; [reflexivity|].
    rewrite (coh_slots_len _ _ _ _ H). lia.
Qed.

Lemma omap_fulfilled (tasks : list (T + js_error)) :
  (forall i e, tasks !! i <> Some (inr e)) ->
  tasks = inl <$> omap (λ o : option (T + js_error),
                          match o with Some (inl r) => Some r | _ => None end)
                       (Some <$> tasks).
Proof.
  induction tasks as [|[r|e] tasks IH]; intros Hno.
  - reflexivity.
  - cbn. f_equal. apply IH. intros i e. exact (Hno (S i) e).
  - exfalso. exact (Hno O e eq_refl).
Qed.

(** When all tasks have settled and none was rejected, the values given to
    [Promise.all] are the values of the tasks, in index order. *)
Lemma fulfilled_in_index_order limit tasks s :
  coherent limit tasks (length tasks) s -> all_settled s = true ->
  first_rejection s = None ->
  tasks = inl <$> fulfilled_values s.
Proof.
  intros H Hall Hrej. destruct (coherent_final _ _ _ H Hall) as [_ Hslots].
  unfold fulfilled_values. rewrite Hslots. apply omap_fulfilled.
  intros i e Hi. apply (coh_no_rejection _ _ _ _ H Hrej i e).
  rewrite Hslots, list_lookup_fmap, Hi. reflexivity.
Qed.

End SchedulerFacts.

(** The invariants of the limiter with the bound of the handler, for any
    list of tasks: during the synchronous submission and after every
    completion, in whatever order the tasks settle. *)
Lemma limiter_invariants {T : Type} (tasks : list (T + js_error)) :
  CONCURRENCY = 2%Z
  /\ (forall k, (k <= length tasks)%nat ->
        (length (running (fold_left (fun s i => limited CONCURRENCY i s) (seq 0 k)
                            (idle (length tasks) : scheduler T))) <= 2)%nat)
  /\ (forall order s,
        settle_in_order tasks order (submit_all CONCURRENCY (length tasks)) = Some s ->
        (length (running s) <= 2)%nat
        /\ active s = Z.of_nat (length (running s))
        /\ (started s ++ q s)%list = seq 0 (length tasks)
        /\ (q s <> [] -> length (running s) = 2%nat)
        /\ (forall i s', settle tasks i s = Some s' ->
              match q s with
              | [] => started s' = started s /\ q s' = []
              | j :: q' => started s' = (started s ++ [j])%list /\ q s' = q'
                           /\ j ∈ running s'
              end)).
Proof.
  assert (Hpos : (0 < CONCURRENCY)%Z) by reflexivity.
  assert (Hlen : forall k s, coherent CONCURRENCY tasks k s -> (length (running s) <= 2)%nat).
  { intros k s H. pose proof (coh_active _ _ _ _ H). pose proof (coh_bound _ _ _ _ H).
    unfold CONCURRENCY in *. lia. }
  split; [reflexivity|]. split.
  - intros k Hk. apply (Hlen k). apply coherent_submitted; assumption.
  - intros order s Hrun.
    assert (H : coherent CONCURRENCY tasks (length tasks) s).
    { apply (coherent_settle_in_order _ _ _ order _ _ (coherent_submit_all _ tasks Hpos) Hrun). }
    split; [exact (Hlen _ _ H)|].
    split; [exact (coh_active _ _ _ _ H)|].
    split; [exact (coh_fifo _ _ _ _ H)|].
    split.
    + intros Hq. pose proof (coh_busy _ _ _ _ H Hq). pose proof (coh_active _ _ _ _ H).
      unfold CONCURRENCY in *. lia.
    + intros i s' Hs. exact (settle_starts_head _ _ _ _ Hs).
Qed.

(** ** Deduplication *)

Lemma sameValueZero_eq (a b : jsval) : sameValueZero a b = true -> a = b.
Proof.
  destruct a, b; simpl; try discriminate; try reflexivity.
  - intros H. apply Bool.eqb_prop in H. congruence.
  - intros H. apply String.eqb_eq in H. congruence.
  - intros H. apply String.eqb_eq in H. congruence.
Qed.

Lemma sameValueZero_sym (a b : jsval) : sameValueZero a b = sameValueZero b a.
Proof.
  destruct a, b; simpl; try reflexivity.
  - destruct b0, b; reflexivity.
  - apply String.eqb_sym.
  - apply String.eqb_sym.
Qed.


Lemma filter_comm {A} (P Q : A -> bool) (l : list A) :
  List.filter P (List.filter Q l) = List.filter Q (List.filter P l).
Proof.
  induction l as [|a l IH]; simpl; [reflexivity|].
  destruct (P a) eqn:HP, (Q a) eqn:HQ; simpl; rewrite ?HP, ?HQ; congruence.
Qed.

Lemma filter_absorb {A} (P Q : A -> bool) (l : list A) :
  (forall y, P y = true -> Q y = true) ->
  List.filter P (List.filter Q l) = List.filter P l.
Proof.
  intros H. induction l as [|a l IH]; simpl; [reflexivity|].
  destruct (Q a) eqn:HQ; simpl.
  - destruct (P a); congruence.
  - destruct (P a) eqn:HP; [|exact IH]. rewrite (H a HP) in HQ. discriminate.
Qed.

Lemma first_occurrences_filter (P : jsval -> bool) (l : list jsval) :
  first_occurrences (List.filter P l) = List.filter P (first_occurrences l).
Proof.
  induction l as [|a l IH]; simpl; [reflexivity|].
  destruct (P a) eqn:HP; simpl.
  - rewrite IH. f_equal. apply filter_comm.
  - rewrite IH. symmetry. apply filter_absorb.
    intros y Hy. apply negb_true_iff. destruct (sameValueZero a y) eqn:E; [|reflexivity].
    apply sameValueZero_eq in E. congruence.
Qed.

Lemma spread_set_from (l seen : list jsval) :
  fold_left set_add l seen
  = (seen ++ first_occurrences
               (List.filter (fun y => negb (existsb (sameValueZero y) seen)) l))%list.
Proof.
  revert seen. induction l as [|x l IH]; intros seen; simpl.
  - rewrite app_nil_r. reflexivity.
  - unfold set_add at 2. destruct (existsb (sameValueZero x) seen) eqn:E; simpl.
    + apply IH.
    + assert (Hext : forall L,
                 List.filter (fun y => negb (existsb (sameValueZero y) (seen ++ [x])%list)) L
                 = List.filter (fun y => negb (sameValueZero x y))
                     (List.filter (fun y => negb (existsb (sameValueZero y) seen)) L)).
      { induction L as [|y L IHL]; simpl; [reflexivity|].
        rewrite existsb_app. simpl. rewrite orb_false_r, (sameValueZero_sym y x).
        destruct (existsb (sameValueZero y) seen); simpl; [exact IHL|].
        destruct (sameValueZero x y); simpl; congruence. }
      rewrite IH, <- app_assoc, Hext, first_occurrences_filter. reflexivity.
Qed.

(** [[...new Set(list)]] keeps, of equal items, the first one, in the order
    of the list. *)
Lemma spread_set_first_occurrences (l : list jsval) :
  spread_set l = first_occurrences l.
Proof.
  unfold spread_set. rewrite spread_set_from. simpl. f_equal.
  induction l; simpl; congruence.
Qed.

(** ** The handler *)


Lemma over_cap_iff (n : nat) :
  (MAX_URLS_PER_REQUEST <? N.of_nat n) = true <-> (50 < n)%nat.
Proof. rewrite N.ltb_lt. unfold MAX_URLS_PER_REQUEST. lia. Qed.

(** What an accepted batch goes through: the tasks are submitted, settle in
    the given order, and the response is read off the final state. *)
Lemma batch_scrape_accepted env reqId body worlds order lst resp st :
  get_urls body = JArr lst ->
  (length (spread_set lst) <= 50)%nat ->
  batch_scrape env reqId body worlds order = Some (resp, st) ->
  let tasks := imap (fun i u => run_processOne env (worlds i) u) (spread_set lst) in
  coherent CONCURRENCY tasks (length tasks) st
  /\ all_settled st = true
  /\ resp = match first_rejection st with
            | Some e => Unanswered e
            | None => Json200 reqId (fulfilled_values st)
            end.
Proof.
  intros Hget Hcap. unfold batch_scrape. rewrite Hget.
  destruct (MAX_URLS_PER_REQUEST <? N.of_nat (length (spread_set lst))) eqn:Hover.
  { apply over_cap_iff in Hover. lia. }
  intros Hrun. cbv zeta in *.
  set (tasks := imap (fun i u => run_processOne env (worlds i) u) (spread_set lst)) in *.
  assert (Hlen : length tasks = length (spread_set lst)) by apply length_imap.
  rewrite <- Hlen in Hrun.
  destruct (settle_in_order tasks order (submit_all CONCURRENCY (length tasks)))
    as [s|] eqn:Hs; [|discriminate].
  assert (H : coherent CONCURRENCY tasks (length tasks) s).
  { apply (coherent_settle_in_order _ _ _ order _ _
             (coherent_submit_all CONCURRENCY tasks eq_refl) Hs). }
  destruct (all_settled s) eqn:Hall; [|discriminate].
  destruct (first_rejection s) as [e|] eqn:Hrej; injection Hrun as <- <-;
    rewrite ?Hrej; auto.
Qed.

(** When a pipeline run of an accepted batch throws, [Promise.all] rejects
    and the request gets no response, in whatever order the tasks settle. *)
Lemma batch_unanswered env reqId body worlds order lst resp st :
  get_urls body = JArr lst ->
  (length (spread_set lst) <= 50)%nat ->
  (exists i u e, spread_set lst !! i = Some u
                 /\ run_processOne env (worlds i) u = inr e) ->
  batch_scrape env reqId body worlds order = Some (resp, st) ->
  exists i u e, spread_set lst !! i = Some u
                /\ run_processOne env (worlds i) u = inr e
                /\ resp = Unanswered e.
Proof.
  intros Hget Hcap (i & u & e & Hu & He) Hrun.
  destruct (batch_scrape_accepted _ _ _ _ _ _ _ _ Hget Hcap Hrun) as (H & Hall & Hresp).
  set (tasks := imap (fun i u => run_processOne env (worlds i) u) (spread_set lst)) in *.
  destruct (first_rejection st) as [e'|] eqn:Hrej.
  - destruct (coh_rejection _ _ _ _ H e' Hrej) as [j Hj].
    unfold tasks in Hj. rewrite list_lookup_imap in Hj.
    destruct (spread_set lst !! j) as [u'|] eqn:Hu'; [|discriminate].
    injection Hj as Hj. exists j, u', e'. auto.
  - exfalso. pose proof (fulfilled_in_index_order _ _ _ H Hall Hrej) as Htasks.
    pose proof (f_equal (fun l => l !! i) Htasks) as Hi. simpl in Hi.
    unfold tasks in Hi. rewrite list_lookup_imap, list_lookup_fmap, Hu in Hi. simpl in Hi.
    rewrite He in Hi. destruct (fulfilled_values st !! i); discriminate.
Qed.

Lemma batch_scrape_rejected env reqId body worlds order :
  is_array (get_urls body) = false \/ (50 < unique_count (get_urls body))%nat ->
  exists msg, batch_scrape env reqId body worlds order = Some (Status400 msg, idle 0).
Proof.
  unfold batch_scrape, unique_count. intros [Harr|Hover].
  - destruct (get_urls body); try discriminate; eauto.
  - destruct (get_urls body); try (simpl in Hover; lia).
    apply over_cap_iff in Hover. rewrite Hover. eauto.
Qed.





(** What the handler rejects.  It rejects the whole request exactly when
    [urls] is not an array or the number of unique items exceeds 50; a
    rejected request starts no pipeline run, so it makes no external call.
    The items are not checked.  A request within the bounds is never
    rejected, and a run of it starts one pipeline per unique item.  In
    particular 51 distinct URLs are rejected. *)
Theorem batch_rejected_iff env reqId body worlds order :
  (is_array (get_urls body) = false \/ (50 < unique_count (get_urls body))%nat ->
   exists msg st,
     batch_scrape env reqId body worlds order = Some (Status400 msg, st)
     /\ started st = [])
  /\ (is_array (get_urls body) = true -> (unique_count (get_urls body) <= 50)%nat ->
      forall resp st,
        batch_scrape env reqId body worlds order = Some (resp, st) ->
        (forall msg, resp <> Status400 msg)
        /\ started st = seq 0 (unique_count (get_urls body)))
  /\ (forall urls : list string,
        NoDup urls -> length urls = 51%nat -> get_urls body = JArr (JStr <$> urls) ->
        exists msg st,
          batch_scrape env reqId body worlds order = Some (Status400 msg, st)
          /\ started st = []).
Proof.
  split; [|split].
  - intros H. destruct (batch_scrape_rejected env reqId body worlds order H) as [msg Hm].
    exists msg, (idle 0). auto.
  - intros Harr Hcap resp st Hrun.
    destruct (get_urls body) as [| | | | |lst|] eqn:Hget; try discriminate.
    simpl in Hcap.
    destruct (batch_scrape_accepted _ _ _ _ _ _ _ _ Hget Hcap Hrun) as (H & Hall & Hresp).
    split.
    + intros msg. rewrite Hresp. destruct (first_rejection st); discriminate.
    + destruct (coherent_final _ _ _ H Hall) as [Hst _]. rewrite Hst.
      simpl. rewrite length_imap. reflexivity.
  - intros urls Hnd Hlen Hget.
    assert (Hfo : first_occurrences (JStr <$> urls) = JStr <$> urls).
    { clear Hlen Hget. induction urls as [|a urls IH]; [reflexivity|].
      apply NoDup_cons in Hnd as [Ha Hnd].
      rewrite fmap_cons. cbn [first_occurrences]. rewrite (IH Hnd). f_equal.
      clear IH Hnd. induction urls as [|b urls IH]; [reflexivity|].
      apply not_elem_of_cons in Ha as [Hab Ha].
      rewrite fmap_cons. cbn [List.filter sameValueZero].
      rewrite (proj2 (String.eqb_neq a b) Hab). cbn [negb]. f_equal. exact (IH Ha). }
    destruct (batch_scrape_rejected env reqId body worlds order) as [msg Hm].
    + right. rewrite Hget. unfold unique_count.
      rewrite spread_set_first_occurrences, Hfo, length_fmap. lia.
    + exists msg, (idle 0). auto.
Qed.

(** Being rejected is not the same as not being a sequence of strings or
    being over the bound: an array with an item that is not a string is
    served. *)
Lemma non_string_items_not_rejected :
  ~ (forall env reqId body worlds order,
        (is_string_sequence (get_urls body) = false
         \/ (50 < unique_count (get_urls body))%nat)
        <-> exists msg st,
              batch_scrape env reqId body worlds order = Some (Status400 msg, st)).
Proof.
  intros H.
  destruct (proj1 (H (Sample.env "key" "key") "1a2b3c4d"
                     (JObj [("urls", JArr [JNum "1"])])
                     (fun _ => Sample.a_world Sample.live
                                 (Sample.a_page (Some 200) "" (Some ""))
                                 (Sample.html_reply 0 200 ""))
                     [0%nat])
                  (or_introl eq_refl)) as (msg & st & Hrun).
  vm_compute in Hrun. discriminate.
Qed.

(** C3. The handler does not check that the items of [urls] are strings,
    although its own message for a rejected body asks for [string[]].  The
    body {urls: [1]} is not a sequence of strings, yet it is not rejected:
    the item becomes a task, one pipeline runs, and the request is answered
    with status 200 and the wrong_format result of that run, in whatever
    order the run is scheduled. *)
Theorem non_string_item_is_served :
  let env := Sample.env "key" "key" in
  let w := Sample.a_world Sample.live (Sample.a_page (Some 200) "" (Some ""))
             (Sample.html_reply 0 200 "") in
  let body := JObj [("urls", JArr [JNum "1"])] in
  is_string_sequence (get_urls body) = false
  /\ (exists st,
        batch_scrape env "1a2b3c4d" body (fun _ => w) [0%nat]
        = Some (Json200 "1a2b3c4d"
                  [{| r_status := "failure"; url_input := JNum "1";
                      failure_reason := "wrong_format";
                      failure_text := "The input url `1` is not properly formatted.";
                      scraped_text := ""; ms := 0 |}], st)
        /\ started st = [0%nat])
  /\ (forall order resp st,
        batch_scrape env "1a2b3c4d" body (fun _ => w) order = Some (resp, st) ->
        started st = [0%nat] /\ forall msg, resp <> Status400 msg).
Proof.
  intros env w body. split; [reflexivity|]. split.
  - eexists. split; vm_compute; reflexivity.
  - intros order resp st Hrun.
    destruct (batch_scrape_accepted env "1a2b3c4d" body (fun _ => w) order
                [JNum "1"] resp st eq_refl) as (H & Hall & Hresp);
      [vm_compute; lia | exact Hrun |].
    split.
    + exact (proj1 (coherent_final _ _ _ H Hall)).
    + intros msg. rewrite Hresp. destruct (first_rejection st); discriminate.
Qed.

Lemma batch_rejected_witness :
  exists msg st,
    batch_scrape (Sample.env "key" "key") "1a2b3c4d"
      (JObj [("urls", JStr "https://example.com/")])
      (fun _ => Sample.a_world Sample.live (Sample.a_page (Some 200) "" (Some ""))
                  (Sample.html_reply 0 200 ""))
      [] = Some (Status400 msg, st)
    /\ started st = [].
Proof.
  exact (proj1 (batch_rejected_iff (Sample.env "key" "key") "1a2b3c4d"
                  (JObj [("urls", JStr "https://example.com/")])
                  (fun _ => Sample.a_world Sample.live
                              (Sample.a_page (Some 200) "" (Some ""))
                              (Sample.html_reply 0 200 ""))
                  [])
               (or_introl eq_refl)).
Defined.


(** A batch of 51 distinct URLs is turned away. *)
Example batch_of_51_rejected :
  batch_scrape (Sample.env "key" "key") "1a2b3c4d"
    (JObj [("urls",
            JArr ((fun i => JStr ("https://example.com/" ++ num_to_string (N.of_nat i)))
                    <$> seq 0 51))])
    (fun _ => Sample.a_world Sample.live (Sample.a_page (Some 200) "" (Some ""))
                (Sample.html_reply 0 200 ""))
    []
  = Some (Status400 "Too many URLs; max 50.", idle 0).
Proof. vm_compute. reflexivity. Qed.

(** Fifty are served; with only two runs in flight at a time. *)
Example batch_of_50_served :
  exists rs st,
    batch_scrape (Sample.env "" "key") "1a2b3c4d"
      (JObj [("urls",
              JArr ((fun i => JStr ("https://example.com/" ++ num_to_string (N.of_nat i)))
                      <$> seq 0 50))])
      (fun _ => Sample.a_world Sample.live (Sample.a_page (Some 200) "" (Some ""))
                  (Sample.html_reply 0 200 ""))
      (seq 0 50)
    = Some (Json200 "1a2b3c4d" rs, st)
    /\ length rs = 50%nat.
Proof. eexists _, _. split; [vm_compute; reflexivity|reflexivity]. Qed.

(** ** The limiter of a batch *)

(** C8. While an accepted batch runs, the limiter never has more than 2
    pipeline runs in flight: this holds during the synchronous submission of
    the unique items and after every completion, in whatever order the tasks
    settle.  The counter [active] counts exactly the runs in flight, the tasks
    start in the order of their index with the later ones waiting in the queue
    in that order, the queue is used only while 2 runs are in flight, and a
    completion starts the head of the queue, if there is one, and nothing
    else. *)
Theorem batch_concurrency_bound env (worlds : nat -> world) (lst : list jsval) :
  let unique := spread_set lst in
  let tasks := imap (fun i u => run_processOne env (worlds i) u) unique in
  CONCURRENCY = 2%Z
  /\ (forall k, (k <= length unique)%nat ->
        (length (running (fold_left (fun s i => limited CONCURRENCY i s) (seq 0 k)
                            (idle (length unique) : scheduler result))) <= 2)%nat)
  /\ (forall order s,
        settle_in_order tasks order (submit_all CONCURRENCY (length unique)) = Some s ->
        (length (running s) <= 2)%nat
        /\ active s = Z.of_nat (length (running s))
        /\ (started s ++ q s)%list = seq 0 (length unique)
        /\ (q s <> [] -> length (running s) = 2%nat)
        /\ (forall i s', settle tasks i s = Some s' ->
              match q s with
              | [] => started s' = started s /\ q s' = []
              | j :: q' => started s' = (started s ++ [j])%list /\ q s' = q'
                           /\ j ∈ running s'
              end)).
Proof.
  intros unique tasks. pose proof (limiter_invariants tasks) as H.
  assert (Hlen : length tasks = length unique) by apply length_imap.
  rewrite Hlen in H. exact H.
Qed.

Lemma batch_concurrency_bound_witness :
  exists s,
    settle_in_order
      (imap (fun i u => run_processOne (Sample.env "" "key")
                          (Sample.a_world Sample.live
                             (Sample.a_page (Some 200) "" (Some ""))
                             (Sample.html_reply 0 200 "")) u)
         (spread_set [JStr "https://a.example/"; JStr "foo"; JStr "bar"; JStr "baz"]))
      [1%nat] (submit_all CONCURRENCY 4) = Some s
    /\ running s = [0%nat; 2%nat] /\ q s = [3%nat]
    /\ (length (running s) <= 2)%nat.
Proof.
  eexists. split; [vm_compute; reflexivity|]. split; [reflexivity|]. split; [reflexivity|].
  refine (proj1 (proj2 (proj2 (batch_concurrency_bound (Sample.env "" "key")
            (fun _ => Sample.a_world Sample.live (Sample.a_page (Some 200) "" (Some ""))
                        (Sample.html_reply 0 200 ""))
            [JStr "https://a.example/"; JStr "foo"; JStr "bar"; JStr "baz"]))
            [1%nat] _ _)).
  vm_compute. reflexivity.
Defined.

(** ** The fallback race *)

(** C1. A page that the classifier flags sends the task to the fallback; when
    the fallback answer is not there after 60 s the race rejects and, with no
    handler around it, [processOne] throws [Error("timeout")]: [Promise.all]
    rejects and the batch gets no response, in whatever order its tasks
    settle. *)
Theorem fallback_timeout_escapes :
  let env := Sample.env "key" "key" in
  let w := Sample.a_world Sample.live
             (Sample.a_page (Some 200) "Just a moment" (Some "Please solve the captcha"))
             (Sample.html_reply 61000 200 "<html><body>hello</body></html>") in
  let body := JObj [("urls", JArr [JStr "https://example.com/"])] in
  run_processOne env w (JStr "https://example.com/") = inr (Error "timeout")
  /\ (exists st,
        batch_scrape env "1a2b3c4d" body (fun _ => w) [0%nat]
        = Some (Unanswered (Error "timeout"), st))
  /\ (forall order resp st,
        batch_scrape env "1a2b3c4d" body (fun _ => w) order = Some (resp, st) ->
        resp = Unanswered (Error "timeout")).
Proof.
  intros env w body. split; [vm_compute; reflexivity|]. split.
  - eexists. vm_compute. reflexivity.
  - intros order resp st Hrun.
    destruct (batch_unanswered env "1a2b3c4d" body (fun _ => w) order
                [JStr "https://example.com/"] resp st eq_refl)
      as (i & u & e & Hu & He & ->); [vm_compute; lia | | exact Hrun |].
    + exists 0%nat, (JStr "https://example.com/"), (Error "timeout").
      split; vm_compute; reflexivity.
    + destruct i as [|i]; [|destruct i; discriminate].
      vm_compute in Hu. injection Hu as <-.
      vm_compute in He. injection He as <-. reflexivity.
Qed.

(** C7. A flagged render sends the task to the fallback, and the fallback is
    called; but when its answer comes after the 60 s of the race, the task
    does not end as it should.  With [w] the fallback fetch by itself
    succeeds with a long text that the classifier does not flag, so the task
    should end as Success with that text; with [w'] the fetch fails with
    "ScraperAPI HTTP 500", so the task should end as Failure(scraperapi) with
    that message.  In both cases [processOne] throws [Error("timeout")]
    instead. *)
Theorem late_fallback_is_lost :
  let env := Sample.env "key" "key" in
  let url := "https://example.com/" in
  let flagged := Sample.a_page (Some 200) "Just a moment" (Some "Please solve the captcha") in
  let w := Sample.a_world Sample.live flagged
             (Sample.html_reply 61000 200
                ("<html><body>" ++ Sample.long_text ++ "</body></html>")) in
  let w' := Sample.a_world Sample.live flagged (Sample.html_reply 61000 500 "") in
  (exists s1 s2 pptr s3 v,
      normalizeUrl env (JStr url) = Some url
      /\ apivoidCheck env w (hostOnly env url) {| now := 0; calls := [] |} = (s1, inl ApiOk)
      /\ hardCap (puppeteerFetch w url) s1 = (s2, inl pptr)
      /\ ok pptr = true
      /\ looksLikeCaptcha (content pptr) (title pptr) = true
      /\ scraperApiFetch env w url s2 = (s3, inl v)
      /\ ok v = true
      /\ looksLikeCaptcha (content v) (title v) = false
      /\ content v = trim Sample.long_text)
  /\ In (ScraperApiGet (scraper_api_url env url)) (calls_of_processOne env w (JStr url))
  /\ run_processOne env w (JStr url) = inr (Error "timeout")
  /\ (exists s1 s2 pptr s3 v,
        apivoidCheck env w' (hostOnly env url) {| now := 0; calls := [] |} = (s1, inl ApiOk)
        /\ hardCap (puppeteerFetch w' url) s1 = (s2, inl pptr)
        /\ scraperApiFetch env w' url s2 = (s3, inl v)
        /\ ok v = false
        /\ text v = Some "ScraperAPI HTTP 500")
  /\ run_processOne env w' (JStr url) = inr (Error "timeout").
Proof.
  intros env url flagged w w'.
  split.
  { eexists _, _, _, _, _.
    split; [vm_compute; reflexivity|].
    split; [vm_compute; reflexivity|].
    split; [vm_compute; reflexivity|].
    split; [vm_compute; reflexivity|].
    split; [vm_compute; reflexivity|].
    split; [vm_compute; reflexivity|].
    split; [vm_compute; reflexivity|].
    split; vm_compute; reflexivity. }
  split; [vm_compute; auto 10|].
  split; [vm_compute; reflexivity|].
  split; [|vm_compute; reflexivity].
  eexists _, _, _, _, _.
  split; [vm_compute; reflexivity|].
  split; [vm_compute; reflexivity|].
  split; [vm_compute; reflexivity|].
  split; vm_compute; reflexivity.
Qed.

(** ** The pipeline on concrete inputs *)

(** [String] on the values of a parsed body, and the format check on them. *)
Example to_string_ex :
  to_string (JArr [JNum "1"; JNull; JArr [JStr "a"; JBool true]; JObj []])
  = inl "1,,a,true,[object Object]"
  /\ to_string (JArr [JStr "https://example.com/"; JObj [("toString", JNull)]])
     = inr (TypeError "Cannot convert object to primitive value")
  /\ normalizeUrl (Sample.env "k" "k") (JArr [JStr "https://example.com/"])
     = Some "https://example.com/"
  /\ normalizeUrl (Sample.env "k" "k")
       (JArr [JStr "https://example.com/"; JObj [("toString", JNull)]]) = None.
Proof. repeat split; vm_compute; reflexivity. Qed.

(** An item that [String] cannot convert: the format check fails, the
    template literal of the wrong_format message throws, and the batch that
    holds the item gets no response. *)
Example unconvertible_item_unanswered :
  let env := Sample.env "key" "key" in
  let w := Sample.a_world Sample.live (Sample.a_page (Some 200) "" (Some ""))
             (Sample.html_reply 0 200 "") in
  let item := JObj [("toString", JNum "1")] in
  to_string item = inr (TypeError "Cannot convert object to primitive value")
  /\ run_processOne env w item
     = inr (TypeError "Cannot convert object to primitive value")
  /\ calls_of_processOne env w item = []
  /\ exists st,
       batch_scrape env "1a2b3c4d"
         (JObj [("urls", JArr [JStr "https://example.com/"; item])]) (fun _ => w)
         [0%nat; 1%nat]
       = Some (Unanswered (TypeError "Cannot convert object to primitive value"), st).
Proof.
  intros env w item. repeat split; try (vm_compute; reflexivity).
  eexists. vm_compute. reflexivity.
Qed.

Example not_a_url :
  run_processOne (Sample.env "key" "key")
    (Sample.a_world Sample.live (Sample.a_page (Some 200) "" (Some ""))
       (Sample.html_reply 0 200 ""))
    (JStr "foobar")
  = inl {| r_status := "failure"; url_input := JStr "foobar";
           failure_reason := "wrong_format";
           failure_text := "The input url `foobar` is not properly formatted.";
           scraped_text := ""; ms := 0 |}.
Proof. vm_compute. reflexivity. Qed.

Example no_a_records :
  let reply := fulfilled 250 {| status := 200;
                                data := Some {| error := None; a_records_found := false;
                                                parked_domain := true |} |} in
  exists res,
    run_processOne (Sample.env "key" "key")
      (Sample.a_world reply (Sample.a_page (Some 200) "" (Some ""))
         (Sample.html_reply 0 200 ""))
      (JStr "http://dead-domain.example") = inl res
    /\ failure_reason res = "a_records_not_found".
Proof. eexists. split; vm_compute; reflexivity. Qed.

Example invalid_domain_name :
  let reply := fulfilled 250 {| status := 400;
                                data := Some {| error := Some "Domain name is NOT valid";
                                                a_records_found := false;
                                                parked_domain := false |} |} in
  exists res,
    run_processOne (Sample.env "key" "key")
      (Sample.a_world reply (Sample.a_page (Some 200) "" (Some ""))
         (Sample.html_reply 0 200 ""))
      (JStr "http://bad_domain.example") = inl res
    /\ failure_reason res = "wrong_format"
    /\ failure_text res
       = "The input url domain is not valid for APIVoid (Domain name is NOT valid).".
Proof. eexists. split; [|split]; vm_compute; reflexivity. Qed.

Example reputation_unreachable :
  exists res,
    run_processOne (Sample.env "key" "key")
      (Sample.a_world (rejected 12000 {| name := "AxiosError";
                                        message := "timeout of 12000ms exceeded" |})
         (Sample.a_page (Some 200) "" (Some "")) (Sample.html_reply 0 200 ""))
      (JStr "https://example.com/") = inl res
    /\ failure_reason res = "apivoid_api_key"
    /\ failure_text res = "APIVoid request failed: timeout of 12000ms exceeded".
Proof. eexists. split; [|split]; vm_compute; reflexivity. Qed.

Example not_found_on_first_navigation :
  run_processOne (Sample.env "key" "key")
    (Sample.a_world Sample.live (Sample.a_page (Some 404) "Not Found" (Some "gone"))
       (Sample.html_reply 0 200 ""))
    (JStr "https://example.com/missing")
  = inl {| r_status := "failure"; url_input := JStr "https://example.com/missing";
           failure_reason := "offline_on_puppeteer"; failure_text := "HTTP 404";
           scraped_text := ""; ms := 1136 |}.
Proof. vm_compute. reflexivity. Qed.

(** The primary race is guarded: a render that is still running after 60 s
    ends the task as a failure. *)
Example primary_render_overdue :
  let slow := {| goto := fun _ => fulfilled 70000 (Some 200);
                 title_at := fun _ => fulfilled 5 "Example";
                 innerText_at := fun _ => fulfilled 5 (Some Sample.long_text);
                 waitForNavigation := fun _ => fulfilled 100 tt;
                 close := fulfilled 10 tt |} in
  run_processOne (Sample.env "key" "key")
    (Sample.a_world Sample.live slow (Sample.html_reply 0 200 ""))
    (JStr "https://example.com/")
  = inl {| r_status := "failure"; url_input := JStr "https://example.com/";
           failure_reason := "offline_on_puppeteer"; failure_text := "timeout";
           scraped_text := ""; ms := 60300 |}.
Proof. vm_compute. reflexivity. Qed.

(** A reload during the extraction is retried once. *)
Example extraction_retried :
  let flaky := {| goto := fun _ => fulfilled 800 (Some 200);
                  title_at := fun _ => fulfilled 5 "Example";
                  innerText_at := fun i =>
                    match i with
                    | O => rejected 5 (Error "Execution context was destroyed, most likely because of a navigation.")
                    | _ => fulfilled 5 (Some ("  " ++ Sample.long_text))
                    end;
                  waitForNavigation := fun _ => rejected 10000 (Error "Navigation timeout");
                  close := fulfilled 10 tt |} in
  exists res,
    run_processOne (Sample.env "key" "key")
      (Sample.a_world Sample.live flaky (Sample.html_reply 0 200 ""))
      (JStr "https://example.com/") = inl res
    /\ r_status res = "success"
    /\ scraped_text res = trim Sample.long_text
    /\ ms res = 11751.
Proof. eexists. repeat split; vm_compute; reflexivity. Qed.

(** The calls of a run: with the credential the reputation service is asked
    for the bare host; without it nothing is called. *)
Example calls_with_and_without_credential :
  calls_of_processOne (Sample.env "key" "key")
    (Sample.a_world Sample.live (Sample.a_page (Some 404) "" (Some ""))
       (Sample.html_reply 0 200 ""))
    (JStr "https://Example.com/a?b=c")
  = [ApivoidPost "example.com"; Browser OpGetBrowser; Browser OpNewPage;
     Browser OpSetRequestInterception; Browser (OpGoto "https://example.com/a?b=c");
     Browser OpTitle; Browser OpClose]
  /\ calls_of_processOne (Sample.env "" "key")
       (Sample.a_world Sample.live (Sample.a_page (Some 404) "" (Some ""))
          (Sample.html_reply 0 200 ""))
       (JStr "https://Example.com/a?b=c")
     = [].
Proof. split; vm_compute; reflexivity. Qed.

(** A missing proxy credential ends a flagged task without a fallback call. *)
Example fallback_without_credential :
  exists res,
    run_processOne (Sample.env "key" "")
      (Sample.a_world Sample.live
         (Sample.a_page (Some 200) "Attention Required!" (Some Sample.long_text))
         (Sample.html_reply 0 200 ""))
      (JStr "https://example.com/") = inl res
    /\ failure_reason res = "scraperapi"
    /\ failure_text res = "ScraperAPI key is missing.".
Proof. eexists. repeat split; vm_compute; reflexivity. Qed.

(** * Further properties *)

(** ** Text extraction *)

Lemma is_space_space : is_space " " = true.
Proof. reflexivity. Qed.

Lemma replace_spaces_at_space (c : ascii) (s : string) :
  is_space c = true ->
  replace_all match_spaces O (String c s)
  = String " " (replace_all match_spaces (span_space s) s).
Proof.
  intros Hc. cbn [replace_all]. unfold match_spaces at 1. cbn [span_space].
  rewrite Hc. reflexivity.
Qed.

Lemma replace_spaces_at_other (c : ascii) (s : string) :
  is_space c = false ->
  replace_all match_spaces O (String c s) = String c (replace_all match_spaces O s).
Proof.
  intros Hc. cbn [replace_all]. unfold match_spaces at 1. cbn [span_space].
  rewrite Hc. reflexivity.
Qed.

Lemma replace_spaces_shape (s : string) :
  (collapsed (replace_all match_spaces O s) = true)
  /\ (collapsed (replace_all match_spaces (span_space s) s) = true
      /\ head_space (replace_all match_spaces (span_space s) s) = false).
Proof.
  induction s as [|c s [IH0 [IHk IHh]]]; [repeat split|].
  cbn [span_space]. destruct (is_space c) eqn:Hc.
  - split; [|split; assumption].
    rewrite (replace_spaces_at_space _ _ Hc).
    cbn [collapsed]. rewrite IHk, IHh. reflexivity.
  - rewrite (replace_spaces_at_other _ _ Hc).
    cbn [collapsed head_space]. rewrite Hc, IH0. repeat split.
Qed.

Lemma trim_start_shape (s : string) :
  collapsed s = true ->
  collapsed (trim_start s) = true /\ head_space (trim_start s) = false.
Proof.
  induction s as [|c s IH]; intros H; [split; reflexivity|].
  cbn [trim_start]. destruct (is_space c) eqn:Hc.
  - apply IH. cbn [collapsed] in H. apply andb_true_iff in H as [_ H]. exact H.
  - split; [exact H|]. exact Hc.
Qed.

Lemma trim_end_head (s : string) :
  head_space s = false -> head_space (trim_end s) = false.
Proof.
  destruct s as [|c s]; [reflexivity|]. cbn [head_space trim_end]. intros Hc.
  destruct (trim_end s); [rewrite Hc|]; cbn [head_space]; auto.
Qed.

Lemma trim_end_first (c : ascii) (s : string) :
  is_space c = false -> exists r, trim_end (String c s) = String c r.
Proof.
  intros Hc. cbn [trim_end]. destruct (trim_end s); [rewrite Hc|]; eauto.
Qed.

Lemma trim_end_spaced (s : string) : collapsed s = true -> spaced (trim_end s) = true.
Proof.
  induction s as [|c s IH]; intros H; [reflexivity|].
  cbn [collapsed] in H. apply andb_true_iff in H as [Hc Hs].
  specialize (IH Hs). cbn [trim_end].
  destruct (trim_end s) as [|d r] eqn:Er.
  - destruct (is_space c) eqn:Ec; [reflexivity|]. cbn [spaced]. rewrite Ec. reflexivity.
  - change (spaced (String c (String d r)))
      with ((negb (is_space c) || (Ascii.eqb c " " && negb (is_space d)))
            && spaced (String d r)).
    rewrite IH, andb_true_r.
    destruct (is_space c) eqn:Ec; [|reflexivity]. cbn [negb orb] in *.
    apply andb_true_iff in Hc as [Hc Hh]. rewrite Hc. cbn [andb].
    destruct s as [|d' s']; [discriminate|]. cbn [head_space] in Hh.
    apply negb_true_iff in Hh.
    destruct (trim_end_first d' s' Hh) as [r' Hr]. rewrite Hr in Er.
    injection Er as <- <-. rewrite Hh. reflexivity.
Qed.

Lemma spaced_at (s pre post : string) (c : ascii) :
  spaced s = true -> s = pre ++ String c post -> is_space c = true ->
  c = " "%char /\ exists d post', post = String d post' /\ is_space d = false.
Proof.
  revert s. induction pre as [|a pre IH]; intros s H -> Hc.
  - cbn [append spaced] in H. rewrite Hc in H. cbn [negb orb] in H.
    apply andb_true_iff in H as [H _]. apply andb_true_iff in H as [H1 H2].
    split; [symmetry; apply Ascii.eqb_eq; rewrite Ascii.eqb_sym; exact H1|].
    destruct post as [|d post']; [discriminate|].
    exists d, post'. split; [reflexivity|]. apply negb_true_iff. exact H2.
  - cbn [append spaced] in H. apply andb_true_iff in H as [_ H].
    exact (IH _ H eq_refl Hc).
Qed.

Lemma htmlToText_shape (html : string) :
  head_space (htmlToText html) = false /\ spaced (htmlToText html) = true.
Proof.
  unfold htmlToText. destruct (String.eqb html ""); [split; reflexivity|].
  set (t := replace_all match_tag O _).
  destruct (replace_spaces_shape t) as [Hc _].
  destruct (trim_start_shape _ Hc) as [Hc' Hh]. unfold trim. split.
  - apply trim_end_head, Hh.
  - apply trim_end_spaced, Hc'.
Qed.

(** X1. The text that [htmlToText] returns is whitespace-normalised: every
    whitespace unit in it is a plain space, it is neither the first nor the
    last unit, and the unit after it is not whitespace. *)
Theorem htmlToText_whitespace (html pre post : string) (c : ascii) :
  htmlToText html = pre ++ String c post ->
  is_space c = true ->
  c = " "%char /\ pre <> ""
  /\ exists d post', post = String d post' /\ is_space d = false.
Proof.
  intros Hs Hc. destruct (htmlToText_shape html) as [Hh Hsp].
  destruct (spaced_at _ _ _ _ Hsp Hs Hc) as [-> Hnext].
  split; [reflexivity|]. split; [|exact Hnext].
  intros ->. rewrite Hs in Hh. cbn in Hh. discriminate.
Qed.

Lemma htmlToText_whitespace_witness :
  htmlToText "<p>Hello,
     world</p>" = "Hello," ++ String " " "world"
  /\ exists d post', "world" = String d post' /\ is_space d = false.
Proof.
  split; [reflexivity|].
  exact (proj2 (proj2 (htmlToText_whitespace "<p>Hello,
     world</p>" "Hello," "world" " " eq_refl eq_refl))).
Defined.

Lemma match_tag_none (c : ascii) (s : string) :
  match_tag (String c s) = None
  <-> c <> "<"%char \/ index_unit ">" s = None \/ index_unit ">" s = Some O.
Proof.
  unfold match_tag. destruct (Ascii.eqb_spec c "<") as [->|Hne].
  - destruct (index_unit ">" s) as [[|k]|]; split; auto; try discriminate.
    intros [H|[H|H]]; congruence.
  - assert (H : match c with
                | "<"%char => match index_unit ">" s with
                              | Some (S k) => Some (S k + 2)%nat
                              | _ => None
                              end
                | _ => None
                end = (None : option nat)).
    { destruct c as [[] [] [] [] [] [] [] []]; try reflexivity. congruence. }
    rewrite H. split; auto.
Qed.

Lemma index_unit_replace (m : matcher) (c : ascii) (k : nat) (s : string) :
  c <> " "%char -> index_unit c s = None -> index_unit c (replace_all m k s) = None.
Proof.
  intros Hc. revert k. induction s as [|d s IH]; intros k H; [reflexivity|].
  cbn [index_unit] in H. destruct (Ascii.eqb d c) eqn:Hd; [discriminate|].
  destruct (index_unit c s) eqn:Hi; [discriminate|].
  cbn [replace_all]. destruct k as [|k]; [|apply IH; reflexivity].
  destruct (m (String d s)) as [[|j]|]; cbn [index_unit].
  - rewrite Hd, IH; reflexivity.
  - assert (Ascii.eqb " " c = false) as -> by (apply Ascii.eqb_neq; congruence).
    rewrite IH; reflexivity.
  - rewrite Hd, IH; reflexivity.
Qed.

Lemma replace_tags_tag_free (k : nat) (s : string) :
  tag_free (replace_all match_tag k s) = true.
Proof.
  revert k. induction s as [|c s IH]; intros k; [reflexivity|].
  cbn [replace_all]. destruct k as [|k]; [|apply IH].
  destruct (match_tag (String c s)) as [[|j]|] eqn:Hm.
  - unfold match_tag in Hm. destruct c as [[] [] [] [] [] [] [] []]; try discriminate.
    destruct (index_unit ">" s) as [[|?]|]; discriminate.
  - cbn [tag_free]. rewrite IH. reflexivity.
  - cbn [tag_free]. rewrite IH.
    assert (Hn : match_tag (String c (replace_all match_tag O s)) = None).
    { apply match_tag_none. apply match_tag_none in Hm as [H|[H|H]]; [auto| |].
      - right. left. apply index_unit_replace; [discriminate|exact H].
      - right. right. destruct s as [|d s']; [discriminate|].
        cbn [index_unit] in H. destruct (Ascii.eqb_spec d ">") as [->|Hd].
        + assert (Hd : match_tag (String ">" s') = None)
            by (apply match_tag_none; left; discriminate).
          cbn [replace_all]. rewrite Hd. reflexivity.
        + destruct (index_unit ">" s'); discriminate. }
    rewrite Hn. reflexivity.
Qed.

Lemma tag_free_cons (c : ascii) (s : string) :
  tag_free (String c s) = true <-> match_tag (String c s) = None /\ tag_free s = true.
Proof.
  cbn [tag_free]. destruct (match_tag (String c s)); split; try discriminate; auto.
  - intros [H _]. discriminate.
  - intros [_ H]. exact H.
Qed.

Lemma replace_spaces_tag_free (k : nat) (s : string) :
  tag_free s = true -> tag_free (replace_all match_spaces k s) = true.
Proof.
  revert k. induction s as [|c s IH]; intros k H; [reflexivity|].
  apply tag_free_cons in H as [Hm Hs].
  destruct k as [|k]; [|cbn [replace_all]; apply IH, Hs].
  destruct (is_space c) eqn:Hc.
  - rewrite (replace_spaces_at_space _ _ Hc). apply tag_free_cons. split.
    + apply match_tag_none. left. discriminate.
    + apply IH, Hs.
  - rewrite (replace_spaces_at_other _ _ Hc). apply tag_free_cons. split; [|apply IH, Hs].
    apply match_tag_none. apply match_tag_none in Hm as [H|[H|H]]; [auto| |].
    + right. left. apply index_unit_replace; [discriminate|exact H].
    + right. right. destruct s as [|d s']; [discriminate|].
      cbn [index_unit] in H. destruct (Ascii.eqb_spec d ">") as [->|Hd].
      * rewrite replace_spaces_at_other by reflexivity. reflexivity.
      * destruct (index_unit ">" s'); discriminate.
Qed.

Lemma trim_start_tag_free (s : string) :
  tag_free s = true -> tag_free (trim_start s) = true.
Proof.
  induction s as [|c s IH]; intros H; [reflexivity|].
  cbn [trim_start]. destruct (is_space c); [|exact H].
  apply IH. apply tag_free_cons in H as [_ H]. exact H.
Qed.

Lemma index_unit_trim_end (c : ascii) (s : string) :
  index_unit c s = None -> index_unit c (trim_end s) = None.
Proof.
  induction s as [|d s IH]; intros H; [reflexivity|].
  cbn [index_unit] in H. destruct (Ascii.eqb d c) eqn:Hd; [discriminate|].
  destruct (index_unit c s) eqn:Hi; [discriminate|]. specialize (IH eq_refl).
  cbn [trim_end]. destruct (trim_end s) as [|e r].
  - destruct (is_space d); cbn [index_unit]; [reflexivity|]. rewrite Hd. reflexivity.
  - cbn [index_unit]. rewrite Hd. cbn [index_unit] in IH. rewrite IH. reflexivity.
Qed.

Lemma trim_end_tag_free (s : string) :
  tag_free s = true -> tag_free (trim_end s) = true.
Proof.
  induction s as [|c s IH]; intros H; [reflexivity|].
  apply tag_free_cons in H as [Hm Hs]. specialize (IH Hs).
  cbn [trim_end]. destruct (trim_end s) as [|e r] eqn:Er.
  - destruct (is_space c); [reflexivity|]. apply tag_free_cons. split; [|reflexivity].
    apply match_tag_none. right. left. reflexivity.
  - apply tag_free_cons. split; [|exact IH].
    apply match_tag_none. apply match_tag_none in Hm as [H|[H|H]]; [auto| |].
    + right. left. rewrite <- Er. apply index_unit_trim_end, H.
    + right. right. destruct s as [|d s']; [discriminate|].
      cbn [index_unit] in H. destruct (Ascii.eqb_spec d ">") as [->|Hd].
      * destruct (trim_end_first ">" s' eq_refl) as [r' Hr]. rewrite Hr in Er.
        injection Er as <- <-. reflexivity.
      * destruct (index_unit ">" s'); discriminate.
Qed.

Lemma tag_free_at (s pre post : string) :
  tag_free s = true -> s = pre ++ post -> match_tag post = None.
Proof.
  revert s. induction pre as [|a pre IH]; intros s H ->.
  - cbn [append] in H. destruct post as [|c post]; [reflexivity|].
    apply tag_free_cons in H as [H _]. exact H.
  - cbn [append] in H. apply tag_free_cons in H as [_ H]. exact (IH _ H eq_refl).
Qed.

(** X2. No tag survives [htmlToText]: the tag expression [<[^>]+>] matches
    at no position of the text it returns. *)
Theorem htmlToText_no_tag (html pre post : string) :
  htmlToText html = pre ++ post -> match_tag post = None.
Proof.
  apply tag_free_at. unfold htmlToText.
  destruct (String.eqb html ""); [reflexivity|].
  unfold trim. apply trim_end_tag_free, trim_start_tag_free, replace_spaces_tag_free,
    replace_tags_tag_free.
Qed.

Lemma htmlToText_no_tag_witness :
  htmlToText "a <<b>c> <> d" = "a c> <> d" /\ match_tag "<> d" = None.
Proof.
  split; [reflexivity|].
  exact (htmlToText_no_tag "a <<b>c> <> d" "a c> " "<> d" eq_refl).
Defined.

Lemma replace_all_length (m : matcher) (k : nat) (s : string) :
  (String.length (replace_all m k s) <= String.length s)%nat.
Proof.
  revert k. induction s as [|c s IH]; intros k; [reflexivity|].
  cbn [replace_all]. destruct k as [|k].
  - destruct (m (String c s)) as [[|j]|]; cbn [String.length]; apply le_n_S, IH.
  - cbn [String.length]. apply Nat.le_trans with (String.length s); [apply IH|lia].
Qed.

Lemma trim_start_length (s : string) :
  (String.length (trim_start s) <= String.length s)%nat.
Proof.
  induction s as [|c s IH]; [reflexivity|]. cbn [trim_start].
  destruct (is_space c); cbn [String.length]; lia.
Qed.

Lemma trim_end_length (s : string) :
  (String.length (trim_end s) <= String.length s)%nat.
Proof.
  induction s as [|c s IH]; [reflexivity|]. cbn [trim_end].
  destruct (trim_end s); [destruct (is_space c)|]; cbn [String.length] in *; lia.
Qed.

Lemma htmlToText_length (html : string) : js_length (htmlToText html) <= js_length html.
Proof.
  unfold js_length.
  enough (String.length (htmlToText html) <= String.length html)%nat by lia.
  unfold htmlToText. destruct (String.eqb html ""); [cbn; lia|]. unfold trim.
  eapply Nat.le_trans; [apply trim_end_length|].
  eapply Nat.le_trans; [apply trim_start_length|].
  eapply Nat.le_trans; [apply replace_all_length|].
  eapply Nat.le_trans; [apply replace_all_length|].
  eapply Nat.le_trans; [apply replace_all_length|].
  apply replace_all_length.
Qed.

Lemma slice0_length (n : N) (s : string) :
  js_length (slice0 n s) <= n /\ js_length (slice0 n s) <= js_length s.
Proof.
  unfold js_length. revert n. induction s as [|c s IH]; intros n; cbn [slice0].
  - cbn. lia.
  - destruct (N.eqb_spec n 0) as [->|Hn]; [cbn; lia|].
    cbn [String.length]. destruct (IH (N.pred n)). lia.
Qed.

Lemma slice0_short (n : N) (s : string) : js_length s <= n -> slice0 n s = s.
Proof.
  unfold js_length. revert n. induction s as [|c s IH]; intros n H; [reflexivity|].
  cbn [slice0]. cbn [String.length] in H.
  destruct (N.eqb_spec n 0) as [->|Hn]; [lia|]. f_equal. apply IH. lia.
Qed.

(** ** The reputation checker and the proxy fetcher *)

(** What [apivoidCheck] returns and calls, as the later proofs use it. *)
Lemma apivoidCheck_facts env w host s :
  exists s' r,
    apivoidCheck env w host s = (s', inl r)
    /\ (forall reason_ text_, r = ApiFail reason_ text_ ->
          In reason_ ["apivoid_api_key"; "wrong_format"; "a_records_not_found";
                      "parked_domain"]
          /\ text_ <> "")
    /\ (APIVOID_KEY env = "" ->
          s' = s /\ r = ApiFail "apivoid_api_key" "APIVoid API key is missing.")
    /\ (APIVOID_KEY env <> "" -> host = None \/ host = Some "" ->
          s' = s /\ r = ApiFail "wrong_format" "Host could not be derived from the URL.")
    /\ (APIVOID_KEY env <> "" -> forall h, host = Some h -> h <> "" ->
          s' = {| now := now s + latency (apivoid_post w h);
                  calls := calls s ++ [ApivoidPost h] |}).
Proof.
  destruct (apivoidCheck_returns env w host s) as (s' & r & Hrun).
  exists s', r. split; [exact Hrun|]. split; [|split; [|split]].
  - intros reason_ text_ ->.
    split; [|exact (proj2 (apivoidCheck_fail_nonempty _ _ _ _ _ _ _ Hrun))].
    revert Hrun. unfold apivoidCheck.
    destruct (String.eqb (APIVOID_KEY env) "");
      [unfold ret; intros [= <- <- <-]; simpl; auto|].
    destruct host as [[|c h]|]; try (unfold ret; intros [= <- <- <-]; simpl; auto).
    unfold try_catch, bind, await, ret.
    destruct (settles (apivoid_post w (String c h))) as [resp|e];
      [|intros [= <- <- <-]; simpl; auto].
    repeat match goal with
           | |- context [if ?b then _ else _] => destruct b
           end; intros [= <- <- <-]; simpl; auto 6.
  - intros Hkey. rewrite (apivoidCheck_missing_key _ _ _ _ Hkey) in Hrun.
    injection Hrun as <- <-. auto.
  - intros Hkey Hhost. revert Hrun. unfold apivoidCheck.
    rewrite (eqb_empty_false _ Hkey).
    destruct Hhost as [-> | ->]; unfold ret; intros [= <- <-]; auto.
  - intros Hkey h -> Hh. revert Hrun. unfold apivoidCheck.
    rewrite (eqb_empty_false _ Hkey). destruct h as [|c h]; [congruence|].
    unfold try_catch, bind, await, ret.
    destruct (settles (apivoid_post w (String c h))) as [resp|e];
      [|intros [= <- <-]; reflexivity].
    repeat match goal with
           | |- context [if ?b then _ else _] => destruct b
           end; intros [= <- <-]; reflexivity.
Qed.

(** What [scraperApiFetch] returns and calls, as the later proofs use it. *)
Lemma scraperApiFetch_facts env w url s :
  exists s' v,
    scraperApiFetch env w url s = (s', inl v)
    /\ js_length (content v) <= TEXT_MAX_CHARS
    /\ js_length (title v) <= 300
    /\ (ok v = false ->
          content v = "" /\ reason v = Some "scraperapi"
          /\ exists m, text v = Some m /\ m <> "")
    /\ (SCRAPERAPI_KEY env = "" ->
          s' = s /\ ok v = false /\ text v = Some "ScraperAPI key is missing.")
    /\ (SCRAPERAPI_KEY env <> "" ->
          s' = {| now := now s + latency (scraper_get w (scraper_api_url env url));
                  calls := calls s ++ [ScraperApiGet (scraper_api_url env url)] |}
          /\ match settles (scraper_get w (scraper_api_url env url)) with
             | inr e =>
                 ok v = false
                 /\ text v = Some ("ScraperAPI request failed: " ++ message_or_error e)
             | inl resp =>
                 ok v = negb (400 <=? status resp)
                 /\ httpStatus v = Some (status resp)
                 /\ (400 <= status resp ->
                     text v = Some ("ScraperAPI HTTP " ++ num_to_string (status resp)))
                 /\ (status resp < 400 ->
                     match data resp with
                     | Some html =>
                         content v = slice0 TEXT_MAX_CHARS (htmlToText html)
                         /\ js_length (content v) <= js_length html
                     | None => content v = "" /\ title v = ""
                     end)
             end).
Proof.
  unfold scraperApiFetch. fold (scraper_api_url env url).
  destruct (String.eqb_spec (SCRAPERAPI_KEY env) "") as [Hkey|Hkey].
  - unfold ret. eexists _, _. split; [reflexivity|]. cbn [content title ok reason text].
    split; [unfold TEXT_MAX_CHARS, js_length; cbn; lia|]. split; [unfold TEXT_MAX_CHARS, js_length; cbn; lia|].
    split; [intros _; repeat split; eexists; split; [reflexivity|discriminate]|].
    split; [auto|]. intros H. contradiction.
  - unfold try_catch, bind, await, ret.
    destruct (settles (scraper_get w (scraper_api_url env url))) as [resp|e] eqn:Hset.
    + destruct (400 <=? status resp) eqn:Hst.
      * eexists _, _. split; [reflexivity|]. cbn [content title ok reason text httpStatus].
        split; [unfold TEXT_MAX_CHARS, js_length; cbn; lia|].
        split; [destruct (match_title _); [apply slice0_length | unfold js_length; cbn; lia]|].
        split; [intros _; repeat split; eexists; split; [reflexivity|discriminate]|].
        split; [intros H; contradiction|]. intros _. split; [reflexivity|].
        split; [reflexivity|]. split; [reflexivity|]. split; [reflexivity|].
        intros Hlt. apply N.leb_le in Hst. lia.
      * eexists _, _. split; [reflexivity|]. cbn [content title ok reason text httpStatus].
        split; [apply slice0_length|].
        split; [destruct (match_title _); [apply slice0_length | unfold js_length; cbn; lia]|].
        split; [discriminate|].
        split; [intros H; contradiction|]. intros _. split; [reflexivity|].
        split; [reflexivity|]. split; [reflexivity|].
        split; [intros Hge; apply N.leb_gt in Hst; lia|].
        intros _. destruct (data resp) as [html|].
        -- split; [reflexivity|].
           eapply N.le_trans; [apply slice0_length|apply htmlToText_length].
        -- split; reflexivity.
    + eexists _, _. split; [reflexivity|]. cbn [content title ok reason text httpStatus].
      split; [unfold TEXT_MAX_CHARS, js_length; cbn; lia|]. split; [unfold TEXT_MAX_CHARS, js_length; cbn; lia|].
      split; [intros _; repeat split; eexists; split; [reflexivity|discriminate]|].
      split; [intros H; contradiction|]. intros _. repeat split.
Qed.

(** X3. [apivoidCheck] never rejects, whatever the service does.  A failure
    carries one of the four reasons and a text that is not empty.  Without the
    credential, or with the credential but no host, it answers at once and
    makes no call (apivoid_api_key, resp. wrong_format); otherwise it makes
    exactly one call, for the host it was given, and takes the time of that
    call. *)
Theorem apivoidCheck_contract env w host s :
  exists s' r,
    apivoidCheck env w host s = (s', inl r)
    /\ (forall reason_ text_, r = ApiFail reason_ text_ ->
          In reason_ ["apivoid_api_key"; "wrong_format"; "a_records_not_found";
                      "parked_domain"]
          /\ text_ <> "")
    /\ (APIVOID_KEY env = "" ->
          s' = s /\ r = ApiFail "apivoid_api_key" "APIVoid API key is missing.")
    /\ (APIVOID_KEY env <> "" -> host = None \/ host = Some "" ->
          s' = s /\ r = ApiFail "wrong_format" "Host could not be derived from the URL.")
    /\ (APIVOID_KEY env <> "" -> forall h, host = Some h -> h <> "" ->
          s' = {| now := now s + latency (apivoid_post w h);
                  calls := calls s ++ [ApivoidPost h] |}).
Proof.
  exact (apivoidCheck_facts env w host s).
Qed.

(** X4. [scraperApiFetch] never rejects.  The content it returns has at most
    200000 units and is never longer than the body it was extracted from,
    the title has at most 300 units; a failure has reason scraperapi, a text
    that is not empty and no content.  Without the credential it fails at
    once with no call; otherwise it makes exactly one call, to the address
    built from the key and the encoded target. *)
Theorem scraperApiFetch_contract env w url s :
  exists s' v,
    scraperApiFetch env w url s = (s', inl v)
    /\ js_length (content v) <= TEXT_MAX_CHARS
    /\ js_length (title v) <= 300
    /\ (ok v = false ->
          content v = "" /\ reason v = Some "scraperapi"
          /\ exists m, text v = Some m /\ m <> "")
    /\ (SCRAPERAPI_KEY env = "" ->
          s' = s /\ ok v = false /\ text v = Some "ScraperAPI key is missing.")
    /\ (SCRAPERAPI_KEY env <> "" ->
          s' = {| now := now s + latency (scraper_get w (scraper_api_url env url));
                  calls := calls s ++ [ScraperApiGet (scraper_api_url env url)] |}
          /\ match settles (scraper_get w (scraper_api_url env url)) with
             | inr e =>
                 ok v = false
                 /\ text v = Some ("ScraperAPI request failed: " ++ message_or_error e)
             | inl resp =>
                 ok v = negb (400 <=? status resp)
                 /\ httpStatus v = Some (status resp)
                 /\ (400 <= status resp ->
                     text v = Some ("ScraperAPI HTTP " ++ num_to_string (status resp)))
                 /\ (status resp < 400 ->
                     match data resp with
                     | Some html =>
                         content v = slice0 TEXT_MAX_CHARS (htmlToText html)
                         /\ js_length (content v) <= js_length html
                     | None => content v = "" /\ title v = ""
                     end)
             end).
Proof.
  exact (scraperApiFetch_facts env w url s).
Qed.

(** ** The render fetcher *)

(** X5. Once the browser, the page and the request interception are set up,
    [withPage] closes the page on every exit path of its callback, after
    the callback and exactly once; when closing fails, the error of
    [page.close()] replaces whatever the callback returned or threw.  When
    [setRequestInterception] fails the callback is not run and the page that
    [newPage] opened is not closed. *)
Theorem withPage_release {A} (w : world) (fn : page -> M A) (s : clock_log) :
  settles (getBrowser w) = inl tt ->
  settles (newPage w) = inl tt ->
  (settles (setRequestInterception w) = inl tt ->
   withPage w fn s
   = let (s1, r) := fn (the_page w) (page_ready w s) in
     ({| now := now s1 + latency (close (the_page w));
         calls := calls s1 ++ [Browser OpClose] |},
      match settles (close (the_page w)) with
      | inl _ => r
      | inr e => inr e
      end))
  /\ (forall e, settles (setRequestInterception w) = inr e ->
        withPage w fn s = (page_ready w s, inr e)).
Proof.
  intros Hb Hn. unfold withPage, bind, await, try_finally, page_ready.
  rewrite Hb. cbn [now calls]. rewrite Hn. cbn [now calls]. split.
  - intros Hi. rewrite Hi. cbn [now calls]. rewrite <- !app_assoc. cbn [app].
    destruct (fn (the_page w) _) as [s1 r].
    destruct (settles (close (the_page w))); reflexivity.
  - intros e Hi. rewrite Hi. cbn [now calls]. rewrite <- !app_assoc. reflexivity.
Qed.

Lemma withPage_release_witness :
  withPage (Sample.a_world Sample.live
              {| goto := fun _ => fulfilled 800 (Some 200);
                 title_at := fun _ => fulfilled 5 "Example";
                 innerText_at := fun _ => fulfilled 5 (Some "text");
                 waitForNavigation := fun _ => fulfilled 100 tt;
                 close := rejected 10 (Error "Target closed") |}
              (Sample.html_reply 0 200 ""))
    (fun p => await (Browser OpTitle) (title_at p O)) {| now := 0; calls := [] |}
  = ({| now := 36;
        calls := [Browser OpGetBrowser; Browser OpNewPage;
                  Browser OpSetRequestInterception; Browser OpTitle; Browser OpClose] |},
     inr (Error "Target closed")).
Proof.
  exact (proj1 (withPage_release
                  (Sample.a_world Sample.live
                     {| goto := fun _ => fulfilled 800 (Some 200);
                        title_at := fun _ => fulfilled 5 "Example";
                        innerText_at := fun _ => fulfilled 5 (Some "text");
                        waitForNavigation := fun _ => fulfilled 100 tt;
                        close := rejected 10 (Error "Target closed") |}
                     (Sample.html_reply 0 200 ""))
                  (fun p => await (Browser OpTitle) (title_at p O))
                  {| now := 0; calls := [] |} eq_refl eq_refl) eq_refl).
Defined.

Lemma count_calls_app f (l1 l2 : list call) :
  count_calls f (l1 ++ l2) = (count_calls f l1 + count_calls f l2)%nat.
Proof. unfold count_calls. rewrite List.filter_app, length_app. reflexivity. Qed.

Lemma loop_step_transient p wait r i last s e :
  attempt p i = inr e -> is_transient e = true ->
  exists s1 l,
    titleAndTextLoop p wait (S r) i last s = titleAndTextLoop p wait r (S i) (Some e) s1
    /\ calls s1 = (calls s ++ l)%list
    /\ count_calls is_delay l = 1%nat /\ count_calls is_title_call l = 1%nat
    /\ forallb is_browser_call l = true.
Proof.
  unfold attempt, is_transient. intros Ha Ht.
  cbn [titleAndTextLoop]. unfold try_catch, bind, await, ret. cbn [now calls].
  destruct (settles (title_at p i)) as [t|e1].
  - destruct (settles (innerText_at p i)) as [x|e2]; [discriminate|].
    injection Ha as ->. rewrite Ht. cbn [negb now calls].
    destruct (settles (waitForNavigation p i)); cbn [now calls];
      eexists _, _; (split; [reflexivity|]); cbn [calls];
      rewrite <- !app_assoc; (split; [reflexivity|]); repeat split; reflexivity.
  - injection Ha as ->. rewrite Ht. cbn [negb now calls].
    destruct (settles (waitForNavigation p i)); cbn [now calls];
      eexists _, _; (split; [reflexivity|]); cbn [calls];
      rewrite <- !app_assoc; (split; [reflexivity|]); repeat split; reflexivity.
Qed.

Lemma loop_step_decisive p wait r i last s :
  (forall v, attempt p i = inl v ->
     exists s1 l, titleAndTextLoop p wait (S r) i last s = (s1, inl v)
                  /\ calls s1 = (calls s ++ l)%list
                  /\ count_calls is_delay l = O /\ count_calls is_title_call l = 1%nat
                  /\ forallb is_browser_call l = true)
  /\ (forall e, attempt p i = inr e -> is_transient e = false ->
        exists s1 l, titleAndTextLoop p wait (S r) i last s = (s1, inr e)
                     /\ calls s1 = (calls s ++ l)%list
                     /\ count_calls is_delay l = O /\ count_calls is_title_call l = 1%nat
                  /\ forallb is_browser_call l = true).
Proof.
  unfold attempt, is_transient.
  cbn [titleAndTextLoop]. unfold try_catch, bind, await, ret, throw. cbn [now calls].
  destruct (settles (title_at p i)) as [t|e1].
  - destruct (settles (innerText_at p i)) as [x|e2]; split.
    + intros v [= <-]. eexists _, _. split; [reflexivity|]. cbn [calls].
      rewrite <- !app_assoc. split; [reflexivity|]. repeat split; reflexivity.
    + discriminate.
    + discriminate.
    + intros e [= ->] Ht. rewrite Ht. cbn [negb].
      eexists _, _. split; [reflexivity|]. cbn [calls].
      rewrite <- !app_assoc. split; [reflexivity|]. repeat split; reflexivity.
  - split; [discriminate|]. intros e [= ->] Ht. rewrite Ht. cbn [negb].
    eexists _, _. split; [reflexivity|]. cbn [calls]. split; [reflexivity|].
    repeat split; reflexivity.
Qed.

Lemma loop_skip p wait j :
  forall r i last s,
    (forall k, (k < j)%nat -> exists e, attempt p (i + k) = inr e /\ is_transient e = true) ->
    exists s1 l last1,
      titleAndTextLoop p wait (j + r) i last s = titleAndTextLoop p wait r (i + j) last1 s1
      /\ calls s1 = (calls s ++ l)%list
      /\ count_calls is_delay l = j /\ count_calls is_title_call l = j
      /\ match j with
         | O => last1 = last
         | S j' => exists e, attempt p (i + j') = inr e /\ last1 = Some e
         end.
Proof.
  induction j as [|j IH]; intros r i last s H.
  - exists s, [], last. rewrite Nat.add_0_r, app_nil_r. repeat split.
  - destruct (H O ltac:(lia)) as (e & He & Ht). rewrite Nat.add_0_r in He.
    destruct (loop_step_transient p wait (j + r) i last s e He Ht)
      as (s1 & l1 & Hstep & Hc1 & Hd1 & Ht1 & _).
    destruct (IH r (S i) (Some e) s1) as (s2 & l2 & last2 & Hrest & Hc2 & Hd2 & Ht2 & Hl).
    { intros k Hk. destruct (H (S k) ltac:(lia)) as (e' & He' & Ht').
      exists e'. rewrite Nat.add_succ_r in He'. auto. }
    exists s2, (l1 ++ l2)%list, last2. cbn [Nat.add]. rewrite Hstep, Hrest.
    rewrite Nat.add_succ_r. split; [reflexivity|].
    split; [rewrite Hc2, Hc1, app_assoc; reflexivity|].
    rewrite !count_calls_app, Hd1, Hd2, Ht1, Ht2. split; [reflexivity|].
    split; [reflexivity|].
    destruct j as [|j'].
    + exists e. rewrite Nat.add_0_r. subst last2. auto.
    + destruct Hl as (e' & He' & ->). exists e'. rewrite Nat.add_succ_r. auto.
Qed.

Lemma loop_titles_bounded p wait rem :
  forall i last s,
    exists l, calls (fst (titleAndTextLoop p wait rem i last s)) = (calls s ++ l)%list
              /\ (count_calls is_title_call l <= rem)%nat
              /\ forallb is_browser_call l = true.
Proof.
  induction rem as [|rem IH]; intros i last s.
  - exists []. rewrite app_nil_r. split; [reflexivity|]. split; [cbn; lia|reflexivity].
  - destruct (attempt p i) as [v|e] eqn:Ha.
    + destruct (proj1 (loop_step_decisive p wait rem i last s) v Ha)
        as (s1 & l & Hrun & Hc & _ & Ht & Hb).
      exists l. rewrite Hrun. split; [exact Hc|]. split; [lia|exact Hb].
    + destruct (is_transient e) eqn:Ht.
      * destruct (loop_step_transient p wait rem i last s e Ha Ht)
          as (s1 & l1 & Hrun & Hc1 & _ & Ht1 & Hb1).
        destruct (IH (S i) (Some e) s1) as (l2 & Hc2 & Ht2 & Hb2).
        exists (l1 ++ l2)%list. rewrite Hrun, Hc2, Hc1, app_assoc.
        split; [reflexivity|]. rewrite count_calls_app, forallb_app, Hb1, Hb2.
        split; [lia|reflexivity].
      * destruct (proj2 (loop_step_decisive p wait rem i last s) e Ha Ht)
          as (s1 & l & Hrun & Hc & _ & Ht' & Hb).
        exists l. rewrite Hrun. split; [exact Hc|]. split; [lia|exact Hb].
Qed.

(** X6. The extraction loop of [getTitleAndTextWithRetries]: as long as the
    attempts fail with an error of a reload it waits and tries again; the
    first attempt that succeeds gives the result, the first attempt that
    fails with any other error rethrows that error at once, and when all
    [attempts] attempts failed with a reload the error of the last one is
    thrown (with no attempt at all, execution_context_retries_exhausted).
    One settle delay is waited per attempt that failed with a reload, and
    [page.title()] is called at most once per attempt allowed. *)
Theorem retries_until_decisive p attempts wait s j :
  (forall k, (k < j)%nat -> exists e, attempt p k = inr e /\ is_transient e = true) ->
  (j <= attempts)%nat ->
  exists s' l,
    fst (getTitleAndTextWithRetries p attempts wait s) = s'
    /\ calls s' = (calls s ++ l)%list
    /\ (count_calls is_title_call l <= attempts)%nat
    /\ (forall v, (j < attempts)%nat -> attempt p j = inl v ->
          snd (getTitleAndTextWithRetries p attempts wait s) = inl v
          /\ count_calls is_delay l = j)
    /\ (forall e, (j < attempts)%nat -> attempt p j = inr e -> is_transient e = false ->
          snd (getTitleAndTextWithRetries p attempts wait s) = inr e
          /\ count_calls is_delay l = j)
    /\ (j = attempts ->
          snd (getTitleAndTextWithRetries p attempts wait s)
          = inr (match j with
                 | O => Error "execution_context_retries_exhausted"
                 | S j' => match attempt p j' with
                           | inr e => e
                           | inl _ => Error "execution_context_retries_exhausted"
                           end
                 end)
          /\ count_calls is_delay l = j).
Proof.
  intros Hpre Hj. unfold getTitleAndTextWithRetries.
  replace attempts with (j + (attempts - j))%nat by lia.
  destruct (loop_skip p wait j (attempts - j) O None s)
    as (s1 & l1 & last1 & Hskip & Hc1 & Hd1 & Ht1 & Hlast).
  { intros k Hk. exact (Hpre k Hk). }
  rewrite Hskip. cbn [Nat.add].
  destruct (attempts - j)%nat as [|r] eqn:Hr.
  - (* every attempt was used up *)
    exists s1, l1. cbn [titleAndTextLoop]. unfold throw. cbn [fst snd].
    split; [reflexivity|]. split; [exact Hc1|]. split; [lia|].
    split; [intros v Hlt; lia|]. split; [intros e Hlt; lia|].
    intros _. split; [|exact Hd1]. f_equal.
    destruct j as [|j']; [subst last1; reflexivity|].
    destruct Hlast as (e & He & ->). cbn [Nat.add] in He. rewrite He. reflexivity.
  - destruct (attempt p j) as [v|e] eqn:Ha.
    + destruct (proj1 (loop_step_decisive p wait r j last1 s1) v Ha)
        as (s2 & l2 & Hrun & Hc2 & Hd2 & Ht2 & _).
      exists s2, (l1 ++ l2)%list. rewrite Hrun. cbn [fst snd].
      split; [reflexivity|]. split; [rewrite Hc2, Hc1, app_assoc; reflexivity|].
      rewrite !count_calls_app, Hd1, Hd2, Ht1, Ht2.
      split; [lia|]. split; [intros v' _ [= <-]; split; [reflexivity|lia]|].
      split; [intros e _ He; discriminate|]. intros Heq. exfalso. lia.
    + destruct (is_transient e) eqn:Ht.
      * (* one more failed attempt: the loop goes on; only the bound is claimed *)
        destruct (loop_titles_bounded p wait (S r) j last1 s1) as (l0 & Hl0 & Hn0 & _).
        exists (fst (titleAndTextLoop p wait (S r) j last1 s1)), (l1 ++ l0)%list.
        split; [reflexivity|]. split; [rewrite Hl0, Hc1, app_assoc; reflexivity|].
        rewrite count_calls_app, Ht1. split; [lia|].
        split; [intros v _ Hv; discriminate|].
        split; [intros e' _ [= <-] Hf; congruence|]. intros Heq. exfalso. lia.
      * destruct (proj2 (loop_step_decisive p wait r j last1 s1) e Ha Ht)
          as (s2 & l2 & Hrun & Hc2 & Hd2 & Ht2 & _).
        exists s2, (l1 ++ l2)%list. rewrite Hrun. cbn [fst snd].
        split; [reflexivity|]. split; [rewrite Hc2, Hc1, app_assoc; reflexivity|].
        rewrite !count_calls_app, Hd1, Hd2, Ht1, Ht2.
        split; [lia|]. split; [intros v _ Hv; discriminate|].
        split; [intros e' _ [= <-] _; split; [reflexivity|lia]|]. intros Heq. exfalso. lia.
Qed.

Lemma retries_until_decisive_witness :
  snd (getTitleAndTextWithRetries
         {| goto := fun _ => fulfilled 800 (Some 200);
            title_at := fun _ => fulfilled 5 "Example";
            innerText_at := fun i =>
              match i with
              | O => rejected 5 (Error "Execution context was destroyed.")
              | _ => fulfilled 5 (Some " some text ")
              end;
            waitForNavigation := fun _ => fulfilled 100 tt;
            close := fulfilled 10 tt |}
         2 600 {| now := 0; calls := [] |})
  = inl ("Example", "some text").
Proof.
  destruct (retries_until_decisive
              {| goto := fun _ => fulfilled 800 (Some 200);
                 title_at := fun _ => fulfilled 5 "Example";
                 innerText_at := fun i =>
                   match i with
                   | O => rejected 5 (Error "Execution context was destroyed.")
                   | _ => fulfilled 5 (Some " some text ")
                   end;
                 waitForNavigation := fun _ => fulfilled 100 tt;
                 close := fulfilled 10 tt |}
              2 600 {| now := 0; calls := [] |} 1)
    as (s' & l & _ & _ & _ & Hok & _).
  - intros k Hk. assert (k = 0)%nat as -> by lia.
    eexists. split; vm_compute; reflexivity.
  - lia.
  - apply Hok; [lia | vm_compute; reflexivity].
Defined.

Lemma puppeteerFetch_inside w url s0 :
  let fn := fun p : page =>
    bind (await (Browser (OpGoto url)) (goto p url)) (fun httpStatus_ =>
      let bad := match httpStatus_ with
                 | None => true
                 | Some n => (n =? 0) || (400 <=? n)
                 end in
      if bad then
        bind (try_catch (await (Browser OpTitle) (title_at p O)) (fun _ => ret ""))
          (fun title_ =>
             ret {| ok := false; reason := Some "offline_on_puppeteer";
                    text := Some ("HTTP " ++ match httpStatus_ with
                                             | Some n => num_to_string n
                                             | None => "no_response"
                                             end);
                    httpStatus := httpStatus_; title := title_; content := "" |})
      else
        bind (getTitleAndTextWithRetries p 2 600) (fun tt_ =>
          ret {| ok := true; reason := None; text := None; httpStatus := httpStatus_;
                 title := fst tt_; content := slice0 TEXT_MAX_CHARS (snd tt_) |})) in
  forall s1 r, fn (the_page w) s0 = (s1, r) ->
  exists l,
    calls s1 = (calls s0 ++ l)%list
    /\ forallb is_browser_call l = true
    /\ forall v, r = inl v ->
         (ok v = true ->
            reason v = None /\ js_length (content v) <= TEXT_MAX_CHARS
            /\ exists n, httpStatus v = Some n /\ 0 < n < 400)
         /\ (ok v = false ->
               reason v = Some "offline_on_puppeteer" /\ content v = ""
               /\ (httpStatus v = None
                   \/ exists n, httpStatus v = Some n /\ (n = 0 \/ 400 <= n))
               /\ text v = Some ("HTTP " ++ match httpStatus v with
                                            | Some n => num_to_string n
                                            | None => "no_response"
                                            end)).
Proof.
  intros fn s1 r Hrun.
  replace s1 with (fst (fn (the_page w) s0)) by (rewrite Hrun; reflexivity).
  replace r with (snd (fn (the_page w) s0)) by (rewrite Hrun; reflexivity).
  clear Hrun. unfold fn, bind, await, try_catch, ret. cbn [now calls].
  destruct (settles (goto (the_page w) url)) as [st|e].
  2:{ exists [Browser (OpGoto url)]. cbn [fst snd calls].
      split; [reflexivity|]. split; [reflexivity|]. discriminate. }
  destruct (match st with
            | Some n => (n =? 0) || (400 <=? n)
            | None => true
            end) eqn:Hbad.
  - exists [Browser (OpGoto url); Browser OpTitle].
    destruct (settles (title_at (the_page w) O)); cbn [fst snd calls];
      rewrite <- !app_assoc; (split; [reflexivity|]); (split; [reflexivity|]);
      intros v [= <-]; cbn [ok reason content httpStatus text];
      (split; [discriminate|]); intros _; repeat split;
      destruct st as [n|]; auto; right; exists n; split; auto;
      apply orb_true_iff in Hbad as [H|H];
      [apply N.eqb_eq in H | apply N.leb_le in H | apply N.eqb_eq in H
       | apply N.leb_le in H]; auto.
  - destruct st as [n|]; [|discriminate]. apply orb_false_iff in Hbad as [H0 H4].
    apply N.eqb_neq in H0. apply N.leb_gt in H4.
    unfold getTitleAndTextWithRetries.
    match goal with
    | |- context [titleAndTextLoop ?p ?wt ?rem ?i ?la ?st] =>
        destruct (loop_titles_bounded p wt rem i la st) as (l & Hl & _ & Hb);
        destruct (titleAndTextLoop p wt rem i la st) as [s2 [r0|e]]
    end; cbn [fst snd calls] in *; exists (Browser (OpGoto url) :: l);
      (split; [rewrite Hl, <- app_assoc; reflexivity|]);
      (split; [cbn [forallb is_browser_call]; exact Hb|]).
    + intros v [= <-]. cbn [ok reason content httpStatus text]. split; [|discriminate].
      intros _. split; [reflexivity|]. split; [apply slice0_length|].
      exists n. split; [reflexivity|lia].
    + discriminate.
Qed.

Lemma withPage_cases {A} (w : world) (fn : page -> M A) (s : clock_log) :
  (exists l e s',
      withPage w fn s = (s', inr e)
      /\ calls s' = (calls s ++ l)%list /\ forallb is_browser_call l = true)
  \/ (exists s1 r,
         fn (the_page w) (page_ready w s) = (s1, r)
         /\ withPage w fn s
            = ({| now := now s1 + latency (close (the_page w));
                  calls := calls s1 ++ [Browser OpClose] |},
               match settles (close (the_page w)) with
               | inl _ => r
               | inr e => inr e
               end)).
Proof.
  unfold withPage, bind, await, try_finally, page_ready. cbn [now calls].
  destruct (settles (getBrowser w)) as [u1|e1].
  2:{ left. eexists [_], _, _. split; [reflexivity|]. split; reflexivity. }
  destruct (settles (newPage w)) as [u2|e2].
  2:{ left. eexists [_; _], _, _. split; [reflexivity|]. cbn [calls].
      rewrite <- app_assoc. split; reflexivity. }
  destruct (settles (setRequestInterception w)) as [u3|e3].
  2:{ left. eexists [_; _; _], _, _. split; [reflexivity|]. cbn [calls].
      rewrite <- !app_assoc. split; reflexivity. }
  right. cbn [now calls]. rewrite <- !app_assoc. cbn [app].
  destruct (fn (the_page w) _) as [s1 r]. exists s1, r. split; [reflexivity|].
  destruct (settles (close (the_page w))); reflexivity.
Qed.

(** What [puppeteerFetch] returns and calls, as the later proofs use it. *)
Lemma puppeteerFetch_facts w url s :
  (exists l,
      calls (fst (puppeteerFetch w url s)) = (calls s ++ l)%list
      /\ forallb is_browser_call l = true)
  /\ forall v, snd (puppeteerFetch w url s) = inl v ->
       (ok v = true ->
          reason v = None /\ js_length (content v) <= TEXT_MAX_CHARS
          /\ exists n, httpStatus v = Some n /\ 0 < n < 400)
       /\ (ok v = false ->
             reason v = Some "offline_on_puppeteer" /\ content v = ""
             /\ (httpStatus v = None
                 \/ exists n, httpStatus v = Some n /\ (n = 0 \/ 400 <= n))
             /\ text v = Some ("HTTP " ++ match httpStatus v with
                                          | Some n => num_to_string n
                                          | None => "no_response"
                                          end)).
Proof.
  unfold puppeteerFetch.
  match goal with |- context [withPage w ?f s] => set (F := f) end.
  destruct (withPage_cases w F s)
    as [(l & e & s' & Hrun & Hc & Hb) | (s1 & r & Hfn & Hrun)]; rewrite Hrun;
    cbn [fst snd].
  - split; [exists l; auto|discriminate].
  - destruct (puppeteerFetch_inside w url (page_ready w s) s1 r Hfn)
      as (l & Hl & Hb & Hres).
    cbn [calls]. split.
    + exists ([Browser OpGetBrowser; Browser OpNewPage; Browser OpSetRequestInterception]
              ++ l ++ [Browser OpClose])%list.
      rewrite Hl. unfold page_ready. cbn [calls]. rewrite <- !app_assoc.
      split; [reflexivity|]. rewrite !forallb_app, Hb. reflexivity.
    + destruct (settles (close (the_page w))); [exact Hres|discriminate].
Qed.

(** X7. What [puppeteerFetch] returns: with ok, an HTTP status between 1 and
    399 and a content of at most 200000 units; without ok, the reason
    offline_on_puppeteer, no content, a status that is missing, 0 or at least
    400, and the text "HTTP" followed by that status (or no_response).  It
    calls nothing but the browser. *)
Theorem puppeteerFetch_contract w url s :
  (exists l,
      calls (fst (puppeteerFetch w url s)) = (calls s ++ l)%list
      /\ forallb is_browser_call l = true)
  /\ forall v, snd (puppeteerFetch w url s) = inl v ->
       (ok v = true ->
          reason v = None /\ js_length (content v) <= TEXT_MAX_CHARS
          /\ exists n, httpStatus v = Some n /\ 0 < n < 400)
       /\ (ok v = false ->
             reason v = Some "offline_on_puppeteer" /\ content v = ""
             /\ (httpStatus v = None
                 \/ exists n, httpStatus v = Some n /\ (n = 0 \/ 400 <= n))
             /\ text v = Some ("HTTP " ++ match httpStatus v with
                                          | Some n => num_to_string n
                                          | None => "no_response"
                                          end)).
Proof.
  exact (puppeteerFetch_facts w url s).
Qed.

(** ** The pipeline, further *)

Lemma hardCap_value {A} (m : M A) s s2 (v : A) :
  hardCap m s = (s2, inl v) -> m s = (s2, inl v).
Proof.
  unfold hardCap. destruct (m s) as [s' r].
  destruct (now s' - now s <? PER_URL_TIMEOUT_MS); [auto|discriminate].
Qed.

Lemma hardCap_deadline {A} (m : M A) s :
  now (fst (hardCap m s)) <= now s + PER_URL_TIMEOUT_MS.
Proof.
  unfold hardCap. destruct (m s) as [s' r].
  destruct (now s' - now s <? PER_URL_TIMEOUT_MS) eqn:H; cbn [fst now]; [|lia].
  apply N.ltb_lt in H. lia.
Qed.

(** X8. Every result of the pipeline is well formed for its consumer: the
    status is success or failure, the reason of a failure is one of the six
    documented reasons, and the scraped text has at most 200000 units. *)
Theorem processOne_result_vocabulary env w u s s' res :
  processOne env w u s = (s', inl res) ->
  (r_status res = "success" \/ r_status res = "failure")
  /\ (r_status res = "failure" ->
      In (failure_reason res)
         ["wrong_format"; "apivoid_api_key"; "a_records_not_found"; "parked_domain";
          "offline_on_puppeteer"; "scraperapi"])
  /\ js_length (scraped_text res) <= TEXT_MAX_CHARS.
Proof.
  assert (Hempty : js_length "" <= TEXT_MAX_CHARS) by (vm_compute; discriminate).
  unfold processOne, bind, Date_now, ret.
  destruct (normalizeUrl env u) as [url|].
  2:{ destruct (to_string u) as [text|e]; [|discriminate].
      intros [= <- <-]. cbn. auto. }
  destruct (apivoidCheck_facts env w (hostOnly env url) s)
    as (s1 & a & Ha & Hreasons & _).
  rewrite Ha. destruct a as [|reason_ text_].
  2:{ intros [= <- <-]. cbn [r_status failure_reason scraped_text].
      destruct (Hreasons _ _ eq_refl) as [Hin _].
      split; [auto|]. split; [|exact Hempty]. intros _.
      cbn in Hin. cbn. tauto. }
  unfold try_catch.
  destruct (hardCap (puppeteerFetch w url) s1) as [s2 [pptr|e]] eqn:Hp.
  2:{ cbn [ok negb]. intros [= <- <-]. cbn. auto 10. }
  apply hardCap_value in Hp.
  pose proof (proj2 (puppeteerFetch_facts w url s1) pptr) as Hc.
  rewrite Hp in Hc. specialize (Hc eq_refl).
  destruct (ok pptr) eqn:Hok; cbn [negb].
  2:{ intros [= <- <-]. cbn. auto 10. }
  destruct (proj1 Hc eq_refl) as (_ & Hlen & _).
  destruct (looksLikeCaptcha (content pptr) (title pptr)); cbn [negb].
  2:{ intros [= <- <-]. cbn [r_status failure_reason scraped_text].
      split; [auto|]. split; [discriminate|exact Hlen]. }
  destruct (hardCap (scraperApiFetch env w url) s2) as [s3 [v|e]] eqn:Hv; [|discriminate].
  apply hardCap_value in Hv.
  destruct (scraperApiFetch_facts env w url s2) as (s3' & v' & Hv' & Hvlen & _ & Hfail & _).
  rewrite Hv in Hv'. injection Hv' as <- <-.
  destruct (ok v) eqn:Hokv; cbn [negb].
  - destruct (looksLikeCaptcha (content v) (title v)); intros [= <- <-];
      cbn [r_status failure_reason scraped_text].
    + split; [auto|]. split; [|exact Hempty]. intros _. cbn. auto 10.
    + split; [auto|]. split; [discriminate|exact Hvlen].
  - intros [= <- <-]. cbn [r_status failure_reason scraped_text].
    destruct (Hfail eq_refl) as (_ & -> & _). cbn [opt_or str_or].
    split; [auto|]. split; [|exact Hempty]. intros _. cbn. auto 10.
Qed.

Lemma processOne_result_vocabulary_witness :
  In (failure_reason
        {| r_status := "failure"; url_input := JStr "https://example.com/missing";
           failure_reason := "offline_on_puppeteer"; failure_text := "HTTP 404";
           scraped_text := ""; ms := 1136 |})
     ["wrong_format"; "apivoid_api_key"; "a_records_not_found"; "parked_domain";
      "offline_on_puppeteer"; "scraperapi"].
Proof.
  assert (Hrun : exists s',
             processOne (Sample.env "key" "key")
               (Sample.a_world Sample.live
                  (Sample.a_page (Some 404) "Not Found" (Some "gone"))
                  (Sample.html_reply 0 200 ""))
               (JStr "https://example.com/missing") {| now := 0; calls := [] |}
             = (s', inl {| r_status := "failure";
                           url_input := JStr "https://example.com/missing";
                           failure_reason := "offline_on_puppeteer";
                           failure_text := "HTTP 404";
                           scraped_text := ""; ms := 1136 |}))
    by (eexists; vm_compute; reflexivity).
  destruct Hrun as [s' Hrun].
  exact (proj1 (proj2 (processOne_result_vocabulary _ _ _ _ _ _ Hrun)) eq_refl).
Defined.

Lemma apivoidCheck_calls env w host s :
  exists la,
    calls (fst (apivoidCheck env w host s)) = (calls s ++ la)%list
    /\ forallb is_reputation_call la = true /\ (length la <= 1)%nat.
Proof.
  destruct (apivoidCheck_facts env w host s)
    as (s1 & a & Ha & _ & Hnokey & Hnohost & Hcall).
  rewrite Ha. cbn [fst].
  destruct (String.eqb_spec (APIVOID_KEY env) "") as [Hk|Hk].
  - destruct (Hnokey Hk) as [-> _]. exists []. rewrite app_nil_r. auto.
  - destruct host as [[|c h]|].
    + destruct (Hnohost Hk (or_intror eq_refl)) as [-> _]. exists [].
      rewrite app_nil_r. auto.
    + rewrite (Hcall Hk _ eq_refl) by discriminate. exists [ApivoidPost (String c h)].
      auto.
    + destruct (Hnohost Hk (or_introl eq_refl)) as [-> _]. exists [].
      rewrite app_nil_r. auto.
Qed.






(** X10. The elapsed time that a result reports is bounded: it is at most
    the time of the reputation call plus twice the deadline of 60 s, one for
    each race. *)
Theorem processOne_elapsed_bound env w u s s' res (L : N) :
  (forall h, latency (apivoid_post w h) <= L) ->
  processOne env w u s = (s', inl res) ->
  ms res <= L + 2 * PER_URL_TIMEOUT_MS.
Proof.
  intros HL. unfold processOne, bind, Date_now, ret.
  destruct (normalizeUrl env u) as [url|].
  2:{ destruct (to_string u) as [text|e]; [|discriminate].
      intros [= <- <-]. cbn [ms]. lia. }
  destruct (apivoidCheck_facts env w (hostOnly env url) s)
    as (s1 & a & Ha & _ & Hnokey & Hnohost & Hcall).
  assert (H1 : now s1 <= now s + L).
  { destruct (String.eqb_spec (APIVOID_KEY env) "") as [Hk|Hk].
    - destruct (Hnokey Hk) as [-> _]. lia.
    - destruct (hostOnly env url) as [[|c h]|] eqn:Hh.
      + destruct (Hnohost Hk (or_intror eq_refl)) as [-> _]. lia.
      + rewrite (Hcall Hk _ eq_refl) by discriminate. cbn [now].
        pose proof (HL (String c h)). lia.
      + destruct (Hnohost Hk (or_introl eq_refl)) as [-> _]. lia. }
  rewrite Ha. destruct a as [|reason_ text_].
  2:{ intros [= <- <-]. cbn [ms]. lia. }
  unfold try_catch.
  pose proof (hardCap_deadline (puppeteerFetch w url) s1) as H2.
  destruct (hardCap (puppeteerFetch w url) s1) as [s2 [pptr|e]]; cbn [fst] in H2.
  2:{ cbn [ok negb]. intros [= <- <-]. cbn [ms]. lia. }
  destruct (ok pptr); cbn [negb].
  2:{ intros [= <- <-]. cbn [ms]. lia. }
  destruct (looksLikeCaptcha (content pptr) (title pptr)); cbn [negb].
  2:{ intros [= <- <-]. cbn [ms]. lia. }
  pose proof (hardCap_deadline (scraperApiFetch env w url) s2) as H3.
  destruct (hardCap (scraperApiFetch env w url) s2) as [s3 [v|e]]; cbn [fst] in H3;
    [|discriminate].
  destruct (ok v); cbn [negb];
    [destruct (looksLikeCaptcha (content v) (title v))|];
    intros [= <- <-]; cbn [ms]; lia.
Qed.

Lemma processOne_elapsed_bound_witness :
  1141 <= 300 + 2 * PER_URL_TIMEOUT_MS.
Proof.
  assert (Hrun : exists s',
             processOne (Sample.env "key" "key")
               (Sample.a_world Sample.live (Sample.a_page (Some 200) "Blank" (Some ""))
                  (Sample.html_reply 1000 200 ""))
               (JStr "https://example.com/") {| now := 0; calls := [] |}
             = (s', inl {| r_status := "success"; url_input := JStr "https://example.com/";
                           failure_reason := ""; failure_text := ""; scraped_text := "";
                           ms := 1141 |}))
    by (eexists; vm_compute; reflexivity).
  destruct Hrun as [s' Hrun].
  refine (processOne_elapsed_bound _ _ _ _ _ _ 300 _ Hrun).
  intros h. vm_compute. discriminate.
Defined.

Lemma scraperApiFetch_calls_any env w url s :
  exists lc,
    calls (fst (scraperApiFetch env w url s)) = (calls s ++ lc)%list
    /\ forallb is_proxy_call lc = true /\ (length lc <= 1)%nat.
Proof.
  destruct (scraperApiFetch_facts env w url s)
    as (s1 & v & Hv & _ & _ & _ & Hnokey & Hkey).
  rewrite Hv. cbn [fst].
  destruct (String.eqb_spec (SCRAPERAPI_KEY env) "") as [Hk|Hk].
  - destruct (Hnokey Hk) as [-> _]. exists []. rewrite app_nil_r. auto.
  - destruct (Hkey Hk) as [-> _]. eexists [_]. auto.
Qed.

(** X11. The external calls of one pipeline run come in a fixed order and
    only when needed: first at most one call to the reputation service, then
    calls to the browser, then at most one call to the proxy.  An input that
    fails the format check causes no call; the browser is used only after the
    reputation check said ok; the proxy is called only after the primary
    render succeeded and the classifier flagged its content. *)
Theorem external_calls_discipline env w u s :
  exists la lb lc,
    calls (fst (processOne env w u s)) = (calls s ++ la ++ lb ++ lc)%list
    /\ forallb is_reputation_call la = true /\ (length la <= 1)%nat
    /\ forallb is_browser_call lb = true
    /\ forallb is_proxy_call lc = true /\ (length lc <= 1)%nat
    /\ (normalizeUrl env u = None -> la = [] /\ lb = [] /\ lc = [])
    /\ (lb <> [] ->
        exists url s1,
          normalizeUrl env u = Some url
          /\ apivoidCheck env w (hostOnly env url) s = (s1, inl ApiOk))
    /\ (lc <> [] ->
        exists url s1 s2 pptr,
          normalizeUrl env u = Some url
          /\ apivoidCheck env w (hostOnly env url) s = (s1, inl ApiOk)
          /\ hardCap (puppeteerFetch w url) s1 = (s2, inl pptr)
          /\ ok pptr = true
          /\ looksLikeCaptcha (content pptr) (title pptr) = true).
Proof.
  unfold processOne, bind, Date_now, ret.
  destruct (normalizeUrl env u) as [url|] eqn:Hn.
  2:{ exists [], [], []. unfold throw.
      destruct (to_string u) as [text|e]; cbn [fst app]; rewrite app_nil_r;
        repeat split; auto; congruence. }
  destruct (apivoidCheck_calls env w (hostOnly env url) s) as (la & Hla & Hra & Hna).
  destruct (apivoidCheck env w (hostOnly env url) s) as [s1 [a|e]] eqn:Ha;
    cbn [fst] in Hla.
  2:{ exists la, [], []. cbn [fst app]. rewrite app_nil_r.
      repeat split; auto; congruence. }
  destruct a as [|reason_ text_].
  2:{ exists la, [], []. cbn [fst app]. rewrite app_nil_r.
      repeat split; auto; congruence. }
  unfold try_catch.
  destruct (proj1 (puppeteerFetch_facts w url s1)) as (lb & Hlb & Hrb).
  rewrite <- hardCap_calls in Hlb.
  assert (Hbrowser : exists url0 s0,
             Some url = Some url0
             /\ apivoidCheck env w (hostOnly env url0) s = (s0, inl ApiOk))
    by (exists url, s1; auto).
  destruct (hardCap (puppeteerFetch w url) s1) as [s2 [pptr|e]] eqn:Hp; cbn [fst] in Hlb.
  2:{ cbn [ok negb]. exists la, lb, []. cbn [fst]. rewrite Hlb, Hla, app_nil_r, app_assoc.
      repeat split; auto; congruence. }
  destruct (ok pptr) eqn:Hok; cbn [negb].
  2:{ exists la, lb, []. cbn [fst]. rewrite Hlb, Hla, app_nil_r, app_assoc.
      repeat split; auto; congruence. }
  destruct (looksLikeCaptcha (content pptr) (title pptr)) eqn:Hflag; cbn [negb].
  2:{ exists la, lb, []. cbn [fst]. rewrite Hlb, Hla, app_nil_r, app_assoc.
      repeat split; auto; congruence. }
  destruct (scraperApiFetch_calls_any env w url s2) as (lc & Hlc & Hrc & Hnc).
  rewrite <- hardCap_calls in Hlc.
  assert (Hfinal : calls (fst (hardCap (scraperApiFetch env w url) s2))
                   = (calls s ++ la ++ lb ++ lc)%list)
    by (rewrite Hlc, Hlb, Hla, !app_assoc; reflexivity).
  exists la, lb, lc.
  split.
  { destruct (hardCap (scraperApiFetch env w url) s2) as [s3 [v|e]]; cbn [fst] in *;
      [|exact Hfinal].
    destruct (ok v); cbn [negb]; [destruct (looksLikeCaptcha (content v) (title v))|];
      exact Hfinal. }
  repeat split; auto; try congruence.
  intros _. exists url, s1, s2, pptr. auto.
Qed.

(** ** The limiter, further *)

Section LimiterMore.

Context {T : Type}.
Implicit Types (s : scheduler T) (tasks : list (T + js_error)).

Lemma settle_slot_kept tasks j s s1 i o :
  settle tasks j s = Some s1 -> slots s !! i = Some (Some o) ->
  exists o', slots s1 !! i = Some (Some o').
Proof.
  unfold settle. destruct (tasks !! j) as [oj|]; [|discriminate].
  destruct (bool_decide (j ∈ running s)); [|discriminate].
  intros [= <-] Hi. unfold next. cbn. 
  assert (H : exists o', <[j:=Some oj]> (slots s) !! i = Some (Some o')).
  { destruct (decide (j = i)) as [->|Hne].
    - exists oj. apply list_lookup_insert_eq. apply lookup_lt_is_Some. eauto.
    - rewrite list_lookup_insert_ne by exact Hne. eauto. }
  destruct (q s); exact H.
Qed.

Lemma settle_slot_origin tasks j s s1 i o :
  settle tasks j s = Some s1 -> slots s1 !! i = Some (Some o) ->
  i = j \/ slots s !! i = Some (Some o).
Proof.
  unfold settle. destruct (tasks !! j) as [oj|]; [|discriminate].
  destruct (bool_decide (j ∈ running s)); [|discriminate].
  intros [= <-]. unfold next. cbn.
  assert (H : <[j:=Some oj]> (slots s) !! i = Some (Some o) ->
              i = j \/ slots s !! i = Some (Some o)).
  { destruct (decide (j = i)) as [->|Hne]; [auto|].
    rewrite list_lookup_insert_ne by exact Hne. auto. }
  destruct (q s); exact H.
Qed.

Lemma settle_fills limit tasks k s i s1 :
  coherent limit tasks k s -> settle tasks i s = Some s1 ->
  i ∈ running s /\ exists o, slots s1 !! i = Some (Some o).
Proof.
  intros H Hs. pose proof Hs as Hs'. unfold settle in Hs.
  destruct (tasks !! i) as [oi|]; [|discriminate].
  destruct (bool_decide (i ∈ running s)) eqn:Hi; [|discriminate].
  apply bool_decide_eq_true in Hi. split; [exact Hi|].
  injection Hs as <-. unfold next. cbn.
  assert (Hlt : (i < length (slots s))%nat).
  { rewrite (coh_slots_len _ _ _ _ H).
    pose proof (coherent_started_lt _ _ _ _ _ H (coh_running _ _ _ _ H i Hi)).
    pose proof (coh_submitted _ _ _ _ H). lia. }
  destruct (q s); exists oi; apply list_lookup_insert_eq, Hlt.
Qed.

Lemma settled_not_again limit tasks k order s s' i o :
  coherent limit tasks k s -> settle_in_order tasks order s = Some s' ->
  slots s !! i = Some (Some o) -> i ∉ order.
Proof.
  revert s o. induction order as [|j order IH]; intros s o H Hrun Hi.
  - apply not_elem_of_nil.
  - cbn [settle_in_order] in Hrun.
    destruct (settle tasks j s) as [s1|] eqn:Hs; [|discriminate].
    apply not_elem_of_cons. split.
    + intros ->. destruct (settle_fills _ _ _ _ _ _ H Hs) as [Hr _].
      destruct (coh_filled _ _ _ _ H j o Hi) as (_ & _ & Hnr). contradiction.
    + destruct (settle_slot_kept _ _ _ _ _ _ Hs Hi) as [o' Hi'].
      exact (IH s1 o' (coherent_settle _ _ _ _ _ _ H Hs) Hrun Hi').
Qed.

Lemma settle_in_order_nodup limit tasks k order s s' :
  coherent limit tasks k s -> settle_in_order tasks order s = Some s' -> NoDup order.
Proof.
  revert s. induction order as [|j order IH]; intros s H Hrun; [apply NoDup_nil_2|].
  cbn [settle_in_order] in Hrun.
  destruct (settle tasks j s) as [s1|] eqn:Hs; [|discriminate].
  pose proof (coherent_settle _ _ _ _ _ _ H Hs) as H1.
  apply NoDup_cons. split; [|exact (IH s1 H1 Hrun)].
  destruct (settle_fills _ _ _ _ _ _ H Hs) as [_ [o Ho]].
  exact (settled_not_again _ _ _ _ _ _ _ _ H1 Hrun Ho).
Qed.

Lemma settle_in_order_origin tasks order s s' i o :
  settle_in_order tasks order s = Some s' -> slots s' !! i = Some (Some o) ->
  i ∈ order \/ exists o', slots s !! i = Some (Some o').
Proof.
  revert s. induction order as [|j order IH]; intros s Hrun Hi.
  - injection Hrun as <-. eauto.
  - cbn [settle_in_order] in Hrun.
    destruct (settle tasks j s) as [s1|] eqn:Hs; [|discriminate].
    destruct (IH s1 Hrun Hi) as [Hin|[o' Ho']].
    + left. apply elem_of_cons. auto.
    + destruct (settle_slot_origin _ _ _ _ _ _ Hs Ho') as [->|H0].
      * left. apply elem_of_cons. auto.
      * eauto.
Qed.

Lemma settle_in_order_running limit tasks k order s s' i :
  coherent limit tasks k s -> settle_in_order tasks order s = Some s' ->
  i ∈ order -> (i < k)%nat.
Proof.
  revert s. induction order as [|j order IH]; intros s H Hrun Hi.
  - apply elem_of_nil in Hi. contradiction.
  - cbn [settle_in_order] in Hrun.
    destruct (settle tasks j s) as [s1|] eqn:Hs; [|discriminate].
    apply elem_of_cons in Hi as [->|Hi].
    + destruct (settle_fills _ _ _ _ _ _ H Hs) as [Hr _].
      exact (coherent_started_lt _ _ _ _ _ H (coh_running _ _ _ _ H j Hr)).
    + exact (IH s1 (coherent_settle _ _ _ _ _ _ H Hs) Hrun Hi).
Qed.

Lemma submit_all_slots limit (n : nat) i :
  slots (submit_all limit n : scheduler T) !! i
  = (replicate n None : list (option (T + js_error))) !! i.
Proof.
  unfold submit_all.
  assert (H : forall (l : list nat) (s : scheduler T),
             slots (fold_left (fun s i => limited limit i s) l s) = slots s).
  { induction l as [|a l IH]; intros s; [reflexivity|]. cbn [fold_left].
    rewrite IH. unfold limited. destruct (active s <? limit)%Z; reflexivity. }
  rewrite H. reflexivity.
Qed.

Lemma submit_all_no_rejection limit (n : nat) :
  first_rejection (submit_all limit n : scheduler T) = None.
Proof.
  unfold submit_all.
  assert (H : forall (l : list nat) (s : scheduler T),
             first_rejection (fold_left (fun s i => limited limit i s) l s)
             = first_rejection s).
  { induction l as [|a l IH]; intros s; [reflexivity|]. cbn [fold_left].
    rewrite IH. unfold limited. destruct (active s <? limit)%Z; reflexivity. }
  rewrite H. reflexivity.
Qed.

End LimiterMore.

(** X12. The limiter runs every task exactly once and never stalls: a run
    of a batch to the end settles each task once (the order of completion is
    a permutation of the tasks) and has started them in the order of their
    index; and from every state that the limiter can reach, whatever the
    order of the completions so far, the remaining tasks can be run to the
    end. *)
Theorem limiter_runs_each_task_once {T : Type} (tasks : list (T + js_error)) :
  (forall order s,
      settle_in_order tasks order (submit_all CONCURRENCY (length tasks)) = Some s ->
      all_settled s = true ->
      Permutation order (seq 0 (length tasks))
      /\ started s = seq 0 (length tasks))
  /\ (forall order s,
        settle_in_order tasks order (submit_all CONCURRENCY (length tasks)) = Some s ->
        exists rest s',
          settle_in_order tasks (order ++ rest) (submit_all CONCURRENCY (length tasks))
          = Some s'
          /\ all_settled s' = true).
Proof.
  pose proof (coherent_submit_all CONCURRENCY tasks eq_refl) as H0.
  split.
  - intros order s Hrun Hall.
    pose proof (coherent_settle_in_order _ _ _ order _ _ H0 Hrun) as H.
    destruct (coherent_final _ _ _ H Hall) as [Hst Hslots].
    split; [|exact Hst].
    apply NoDup_Permutation.
    + exact (settle_in_order_nodup _ _ _ _ _ _ H0 Hrun).
    + apply NoDup_seq.
    + intros i. rewrite elem_of_seq. split.
      * intros Hi. pose proof (settle_in_order_running _ _ _ _ _ _ i H0 Hrun Hi). lia.
      * intros [_ Hi]. cbn in Hi.
        destruct (lookup_lt_is_Some_2 tasks i Hi) as [o Ho].
        assert (Hs : slots s !! i = Some (Some o))
          by (rewrite Hslots, list_lookup_fmap, Ho; reflexivity).
        destruct (settle_in_order_origin _ _ _ _ _ _ Hrun Hs) as [Hin|[o' Ho']];
          [exact Hin|].
        rewrite submit_all_slots in Ho'. apply lookup_replicate in Ho' as [Ho' _].
        discriminate.
  - intros order s Hrun.
    pose proof (coherent_settle_in_order _ _ _ order _ _ H0 Hrun) as H.
    destruct (settle_in_order_exists _ _ _ H) as (rest & s' & Hrest & Hall).
    exists rest, s'. split; [|exact Hall].
    clear H0 H Hall. revert Hrun Hrest.
    generalize (submit_all CONCURRENCY (length tasks) : scheduler T).
    induction order as [|i order IH]; intros s0 Hrun Hrest.
    + injection Hrun as <-. exact Hrest.
    + cbn [settle_in_order app] in *.
      destruct (settle tasks i s0) as [s1|]; [|discriminate]. exact (IH s1 Hrun Hrest).
Qed.

Lemma limiter_runs_each_task_once_witness :
  Permutation [1%nat; 0%nat; 2%nat] (seq 0 3).
Proof.
  assert (Hrun : exists s : scheduler nat,
             settle_in_order [inl 7%nat; inr (Error "timeout"); inl 9%nat]
               [1%nat; 0%nat; 2%nat] (submit_all CONCURRENCY 3) = Some s
             /\ all_settled s = true)
    by (eexists; split; vm_compute; reflexivity).
  destruct Hrun as (s & Hrun & Hall).
  exact (proj1 (proj1 (limiter_runs_each_task_once
                         [inl 7%nat; inr (Error "timeout"); inl 9%nat])
                  [1%nat; 0%nat; 2%nat] s Hrun Hall)).
Defined.

Lemma settle_same_book {T : Type} (tasks1 tasks2 : list (T + js_error)) i
    (a b a' : scheduler T) :
  length tasks1 = length tasks2 ->
  active b = active a -> q b = q a -> running b = running a -> started b = started a ->
  settle tasks1 i a = Some a' ->
  exists b', settle tasks2 i b = Some b'
             /\ active b' = active a' /\ q b' = q a'
             /\ running b' = running a' /\ started b' = started a'.
Proof.
  intros Hlen Ha Hq Hr Hs. unfold settle.
  destruct (tasks1 !! i) as [o1|] eqn:H1; [|discriminate].
  assert (Hlt : (i < length tasks2)%nat)
    by (rewrite <- Hlen; apply lookup_lt_is_Some; eauto).
  destruct (lookup_lt_is_Some_2 tasks2 i Hlt) as [o2 H2]. rewrite H2, Hr.
  destruct (bool_decide (i ∈ running a)); [|discriminate].
  intros [= <-]. eexists. split; [reflexivity|].
  unfold next. cbn. rewrite ?Ha, ?Hq, ?Hr, ?Hs. destruct (q a); cbn; auto.
Qed.

Lemma settle_in_order_same_book {T : Type} (tasks1 tasks2 : list (T + js_error)) order :
  length tasks1 = length tasks2 ->
  forall (a b a' : scheduler T),
    active b = active a -> q b = q a -> running b = running a -> started b = started a ->
    settle_in_order tasks1 order a = Some a' ->
    exists b', settle_in_order tasks2 order b = Some b'
               /\ active b' = active a' /\ q b' = q a'
               /\ running b' = running a' /\ started b' = started a'.
Proof.
  intros Hlen. induction order as [|i order IH]; intros a b a' Ha Hq Hr Hs Hrun.
  - injection Hrun as <-. exists b. auto.
  - cbn [settle_in_order] in *.
    destruct (settle tasks1 i a) as [a1|] eqn:E; [|discriminate].
    destruct (settle_same_book tasks1 tasks2 i a b a1 Hlen Ha Hq Hr Hs E)
      as (b1 & Hb1 & Ha1 & Hq1 & Hr1 & Hs1).
    rewrite Hb1. exact (IH a1 b1 a' Ha1 Hq1 Hr1 Hs1 Hrun).
Qed.

(** X13. Failure isolation in the limiter: which tasks run, wait and start,
    and when, does not depend on what the tasks settle with.  Two batches of
    the same size whose tasks complete in the same order go through the same
    [active], queue, running set and start order, whether their tasks return
    or throw. *)
Theorem limiter_ignores_outcomes {T : Type} (tasks1 tasks2 : list (T + js_error))
    (order : list nat) (s1 : scheduler T) :
  length tasks1 = length tasks2 ->
  settle_in_order tasks1 order (submit_all CONCURRENCY (length tasks1)) = Some s1 ->
  exists s2,
    settle_in_order tasks2 order (submit_all CONCURRENCY (length tasks2)) = Some s2
    /\ active s2 = active s1 /\ q s2 = q s1
    /\ running s2 = running s1 /\ started s2 = started s1.
Proof.
  intros Hlen Hrun. rewrite <- Hlen.
  exact (settle_in_order_same_book tasks1 tasks2 order Hlen _ _ s1
           eq_refl eq_refl eq_refl eq_refl Hrun).
Qed.

Lemma limiter_ignores_outcomes_witness :
  exists s2 : scheduler nat,
    settle_in_order [inr (Error "timeout"); inr (Error "timeout"); inl 3%nat]
      [1%nat; 0%nat] (submit_all CONCURRENCY 3) = Some s2
    /\ running s2 = [2%nat] /\ started s2 = [0%nat; 1%nat; 2%nat].
Proof.
  assert (Hrun : exists s1 : scheduler nat,
             settle_in_order [inl 1%nat; inl 2%nat; inl 3%nat] [1%nat; 0%nat]
               (submit_all CONCURRENCY 3) = Some s1
             /\ running s1 = [2%nat] /\ started s1 = [0%nat; 1%nat; 2%nat])
    by (eexists; repeat split; vm_compute; reflexivity).
  destruct Hrun as (s1 & Hrun & Hr & Hs).
  destruct (limiter_ignores_outcomes [inl 1%nat; inl 2%nat; inl 3%nat]
              [inr (Error "timeout"); inr (Error "timeout"); inl 3%nat]
              [1%nat; 0%nat] s1 eq_refl Hrun) as (s2 & Hrun2 & _ & _ & Hr2 & Hs2).
  exists s2. split; [exact Hrun2|]. split; congruence.
Defined.

(** X14. What [Promise.all] rejects with is the error of the first task, in
    the order of completion, that threw; it does not reject when no task
    settled so far threw. *)
Theorem first_rejection_in_completion_order {T : Type} (tasks : list (T + js_error))
    (order : list nat) (s : scheduler T) :
  settle_in_order tasks order (submit_all CONCURRENCY (length tasks)) = Some s ->
  first_rejection s = first_error tasks order.
Proof.
  assert (H : forall (a : scheduler T),
             settle_in_order tasks order a = Some s ->
             first_rejection s = match first_rejection a with
                                 | Some e => Some e
                                 | None => first_error tasks order
                                 end).
  { induction order as [|i order IH]; intros a Hrun.
    - injection Hrun as <-. destruct (first_rejection a); reflexivity.
    - cbn [settle_in_order first_error] in *.
      destruct (settle tasks i a) as [a1|] eqn:E; [|discriminate].
      rewrite (IH a1 Hrun). unfold settle in E.
      destruct (tasks !! i) as [o|]; [|discriminate].
      destruct (bool_decide (i ∈ running a)); [|discriminate].
      injection E as <-. unfold next. cbn.
      destruct (q a); cbn; destruct (first_rejection a), o; reflexivity. }
  intros Hrun. rewrite (H _ Hrun), submit_all_no_rejection. reflexivity.
Qed.

Lemma first_rejection_in_completion_order_witness :
  exists s : scheduler nat,
    settle_in_order [inr (Error "first in the list"); inr (Error "first to settle")]
      [1%nat; 0%nat] (submit_all CONCURRENCY 2) = Some s
    /\ first_rejection s = Some (Error "first to settle").
Proof.
  eexists. split; [vm_compute; reflexivity|].
  refine (eq_trans (first_rejection_in_completion_order
                      [inr (Error "first in the list"); inr (Error "first to settle")]
                      [1%nat; 0%nat] _ _) eq_refl).
  vm_compute. reflexivity.
Defined.

(** ** Deduplication, further *)

Lemma filter_idem {A} (P : A -> bool) (l : list A) :
  List.filter P (List.filter P l) = List.filter P l.
Proof. apply filter_absorb. auto. Qed.

Lemma first_occurrences_idem (l : list jsval) :
  first_occurrences (first_occurrences l) = first_occurrences l.
Proof.
  induction l as [|x l IH]; [reflexivity|].
  cbn [first_occurrences]. f_equal.
  rewrite first_occurrences_filter, IH. apply filter_idem.
Qed.

Lemma filter_sublist {A} (P : A -> bool) (l : list A) : sublist (List.filter P l) l.
Proof.
  induction l as [|a l IH]; [constructor|]. cbn [List.filter].
  destruct (P a); [apply sublist_skip | apply sublist_cons]; exact IH.
Qed.

Lemma first_occurrences_sublist (l : list jsval) : sublist (first_occurrences l) l.
Proof.
  induction l as [|x l IH]; [constructor|]. cbn [first_occurrences].
  apply sublist_skip. etransitivity; [apply filter_sublist|exact IH].
Qed.

Lemma first_occurrences_keeps (l : list jsval) (v : jsval) :
  In v l -> In v (first_occurrences l).
Proof.
  induction l as [|x l IH]; intros Hin; [destruct Hin|].
  cbn [first_occurrences]. destruct Hin as [->|Hin]; [left; reflexivity|].
  destruct (sameValueZero x v) eqn:E.
  - left. apply sameValueZero_eq, E.
  - right. apply List.filter_In. split; [exact (IH Hin)|]. rewrite E. reflexivity.
Qed.

(** X15. The deduplication [[...new Set(list)]] only drops items: what it
    returns is a subsequence of the list that still contains every item of the
    list, it is never longer than the list, and deduplicating twice changes
    nothing.  Arrays and objects are never merged: a list of arrays and
    objects only is returned as it is. *)
Theorem spread_set_only_drops (l : list jsval) :
  sublist (spread_set l) l
  /\ (forall v, In v l <-> In v (spread_set l))
  /\ (length (spread_set l) <= length l)%nat
  /\ spread_set (spread_set l) = spread_set l
  /\ (forallb (fun v => negb (sameValueZero v v)) l = true -> spread_set l = l).
Proof.
  rewrite !spread_set_first_occurrences.
  split; [apply first_occurrences_sublist|].
  split.
  { intros v. split; [apply first_occurrences_keeps|].
    intros Hin. apply list_elem_of_In.
    eapply elem_of_sublist; [|apply first_occurrences_sublist].
    apply list_elem_of_In, Hin. }
  split; [apply sublist_length, first_occurrences_sublist|].
  split; [apply first_occurrences_idem|].
  induction l as [|x l IH]; intros Hobj; [reflexivity|].
  cbn [forallb] in Hobj. apply andb_true_iff in Hobj as [Hx Hl].
  cbn [first_occurrences]. rewrite (IH Hl). f_equal.
  clear IH Hl. induction l as [|y l IH]; [reflexivity|].
  cbn [List.filter].
  assert (E : sameValueZero x y = false).
  { destruct (sameValueZero x y) eqn:E; [|reflexivity].
    pose proof (sameValueZero_eq _ _ E) as <-. apply negb_true_iff in Hx.
    congruence. }
  rewrite E. cbn [negb]. f_equal. exact IH.
Qed.

(** ** The encoding of the proxied address *)

Lemma encodeURIComponent_cons c s :
  encodeURIComponent (String c s) = encode_unit c ++ encodeURIComponent s.
Proof. reflexivity. Qed.

Lemma decode_encode_unit c rest :
  decode_unit (encode_unit c ++ rest) = Some (c, rest).
Proof.
  destruct c as [[] [] [] [] [] [] [] []]; reflexivity.
Qed.

Lemma encode_unit_alphabet c :
  string_forall is_encoded_unit (encode_unit c) = true
  /\ encode_unit c <> "".
Proof.
  destruct c as [[] [] [] [] [] [] [] []]; split; (reflexivity || discriminate).
Qed.

Lemma string_forall_app P a b :
  string_forall P (a ++ b) = string_forall P a && string_forall P b.
Proof.
  induction a as [|c a IH]; [reflexivity|]. cbn. rewrite IH, andb_assoc. reflexivity.
Qed.

Lemma encodeURIComponent_alphabet s :
  string_forall is_encoded_unit (encodeURIComponent s) = true.
Proof.
  induction s as [|c s IH]; [reflexivity|].
  rewrite encodeURIComponent_cons, string_forall_app, IH.
  rewrite (proj1 (encode_unit_alphabet c)). reflexivity.
Qed.

Lemma encodeURIComponent_inj a : forall b,
  encodeURIComponent a = encodeURIComponent b -> a = b.
Proof.
  induction a as [|c a IH]; intros [|d b] H.
  - reflexivity.
  - exfalso. rewrite encodeURIComponent_cons in H.
    destruct (encode_unit d) eqn:E; [exact (proj2 (encode_unit_alphabet d) E)|].
    discriminate.
  - exfalso. rewrite encodeURIComponent_cons in H.
    destruct (encode_unit c) eqn:E; [exact (proj2 (encode_unit_alphabet c) E)|].
    discriminate.
  - rewrite !encodeURIComponent_cons in H.
    apply (f_equal decode_unit) in H. rewrite !decode_encode_unit in H.
    injection H as -> H. f_equal. apply IH, H.
Qed.

Lemma string_forall_In P s c :
  string_forall P s = true -> In c (list_ascii_of_string s) -> P c = true.
Proof.
  induction s as [|d s IH]; cbn; [tauto|].
  intros H [-> | Hin]; apply andb_true_iff in H as [Hd Hs]; auto.
Qed.

Lemma append_inv_head (a x y : string) : a ++ x = a ++ y -> x = y.
Proof.
  induction a as [|c a IH]; cbn; [auto|]. intros [= H]. exact (IH H).
Qed.

(** X16. [encodeURIComponent], on which the proxied request relies: the
    encoded text is made of letters, digits, the marks [- _ . ! ~ * ' ( )]
    and [%] only, so that no unit of the target URL can end or add a
    parameter of the proxy's query string; and different URLs are encoded
    differently, so that the proxy is asked for the page that was asked
    for. *)
Theorem encodeURIComponent_safe_and_faithful (url : string) :
  (forall c, In c (list_ascii_of_string (encodeURIComponent url)) ->
             is_unreserved c = true \/ c = "%"%char)
  /\ (forall c, In c (list_ascii_of_string (encodeURIComponent url)) ->
                ~ In c ["&"; "="; "?"; "#"; "/"; ":"; "+"; " "]%char)
  /\ (forall url', encodeURIComponent url = encodeURIComponent url' <-> url = url')
  /\ (forall env url', scraper_api_url env url = scraper_api_url env url' <-> url = url').
Proof.
  assert (Hsafe : forall c, In c (list_ascii_of_string (encodeURIComponent url)) ->
                            is_unreserved c = true \/ c = "%"%char).
  { intros c Hin.
    pose proof (string_forall_In _ _ _ (encodeURIComponent_alphabet url) Hin) as H.
    unfold is_encoded_unit in H. apply orb_true_iff in H as [H|H]; [left; exact H|].
    right. apply Ascii.eqb_eq, H. }
  split; [exact Hsafe|]. split.
  { intros c Hin Hbad. destruct (Hsafe c Hin) as [H | ->].
    - cbn in Hbad. repeat (destruct Hbad as [<-|Hbad]; [discriminate H|]). exact Hbad.
    - cbn in Hbad. repeat (destruct Hbad as [Hbad|Hbad]; [discriminate Hbad|]). exact Hbad. }
  split.
  { intros url'. split; [apply encodeURIComponent_inj|intros ->; reflexivity]. }
  intros env url'. split; [|intros ->; reflexivity].
  unfold scraper_api_url. intros H.
  apply encodeURIComponent_inj.
  do 3 apply append_inv_head in H. exact H.
Qed.

(** ** The browser singleton *)

Lemma getBrowser_calls_launched launch p n k :
  getBrowser_calls launch k {| browserPromise := Some p; launches := n |}
  = ({| browserPromise := Some p; launches := n |}, repeat p k).
Proof.
  induction k as [|k IH]; [reflexivity|].
  cbn [getBrowser_calls getBrowser_cached browserPromise]. rewrite IH. reflexivity.
Qed.

(** X17. [getBrowser] launches the browser at most once: however many times
    it is called, one launch is made (none when it is never called) and every
    caller gets the promise of that one launch.  A launch that fails is
    therefore never tried again: every later caller gets the same rejected
    promise. *)
Theorem browser_launched_once (launch : nat -> fate unit) (k : nat) :
  getBrowser_calls launch k {| browserPromise := None; launches := 0 |}
  = ({| browserPromise := match k with O => None | S _ => Some (launch 0%nat) end;
        launches := Nat.min 1 k |},
     repeat (launch 0%nat) k).
Proof.
  destruct k as [|k]; [reflexivity|].
  cbn [getBrowser_calls getBrowser_cached browserPromise launches].
  rewrite getBrowser_calls_launched. reflexivity.
Qed.
